(** * PRT M2 - geodetic reference frames in Africa

    A shallow embedding of the editable country table, its three-tier
    persistence (src/src/App.tsx, component [App]; src/server.ts) and of the
    map join and rendering (src/src/App.tsx, component [AfricaMap]). *)

From Stdlib Require Import Ascii String ZArith QArith Qpower Qround Qabs Lqa.
From stdpp Require Import gmap strings list fin_maps.

Local Open Scope string_scope.
Local Open Scope list_scope.
Local Open Scope Z_scope.

(** * Data model *)

(** [CountryData] and [TableHeaders] are declared in ./data, which exports
    the seed table [AFRICA_DATA] as well.  The field names are those the
    application reads and writes (see [openEditModal] and [exportToExcel]).
    TypeScript types are erased at run time, so [status] is kept as the
    string it is in the JSON payloads. *)
Record CountryData := mkCountry {
  id : string;
  pays : string;
  reseauAncien : string;
  reseauActuel : string;
  itrf : string;
  epoque : string;
  status : string
}.

Record TableHeaders := mkHeaders {
  hdr_country : string;
  hdr_formerNetwork : string;
  hdr_currentNetwork : string;
  hdr_itrf : string;
  hdr_epoch : string;
  hdr_status : string
}.

#[global] Instance CountryData_eq_dec : EqDecision CountryData.
Proof. solve_decision. Defined.

#[global] Instance TableHeaders_eq_dec : EqDecision TableHeaders.
Proof. solve_decision. Defined.

(** JavaScript truthiness of a string: only the empty string is falsy. *)
Definition truthy (s : string) : bool := negb (String.eqb s "").

(** [Array.prototype.findIndex]: the first index whose element satisfies
    [p], and [-1] when there is none. *)
Fixpoint findIndex_from {A : Type} (p : A → bool) (l : list A) (i : Z) : Z :=
  match l with
  | [] => -1
  | x :: l' => if p x then i else findIndex_from p l' (i + 1)
  end.

Definition findIndex {A : Type} (p : A → bool) (l : list A) : Z :=
  findIndex_from p l 0.

(** [Array.prototype.find]. *)
Fixpoint find {A : Type} (p : A → bool) (l : list A) : option A :=
  match l with
  | [] => None
  | x :: l' => if p x then Some x else find p l'
  end.

(** * The React state of [App] *)

(** [headers] and [editingHeaders] hold objects, and React compares the
    values of a state variable and of an effect dependency with [Object.is]:
    [editingHeaders_is_headers] tells whether the two variables hold the
    same object.  They do at the first render ([useState(headers)]) and
    after "Edit Headers" ([setEditingHeaders(headers)]) or "Save Headers"
    ([setHeaders(editingHeaders)]); a keystroke in the header form
    ([{ ...editingHeaders, ... }]) and a parsed response or cache entry are
    new objects. *)
Record AppState := mkApp {
  countries : list CountryData;
  headers : TableHeaders;
  isLoading : bool;
  selectedCountry : option CountryData;
  isEditModalOpen : bool;
  isHeaderModalOpen : bool;
  editingCountry : option CountryData;
  editingHeaders : TableHeaders;
  editingHeaders_is_headers : bool
}.

Definition setCountries (cs : list CountryData) (st : AppState) : AppState :=
  mkApp cs (headers st) (isLoading st) (selectedCountry st)
        (isEditModalOpen st) (isHeaderModalOpen st) (editingCountry st)
        (editingHeaders st) (editingHeaders_is_headers st).

(** [setHeaders] with a new object: the parsed [data.headers] of a response
    or the parsed cache entry. *)
Definition setHeaders (h : TableHeaders) (st : AppState) : AppState :=
  mkApp (countries st) h (isLoading st) (selectedCountry st)
        (isEditModalOpen st) (isHeaderModalOpen st) (editingCountry st)
        (editingHeaders st) false.

Definition setIsLoading (b : bool) (st : AppState) : AppState :=
  mkApp (countries st) (headers st) b (selectedCountry st)
        (isEditModalOpen st) (isHeaderModalOpen st) (editingCountry st)
        (editingHeaders st) (editingHeaders_is_headers st).

Definition setSelectedCountry (c : option CountryData) (st : AppState) : AppState :=
  mkApp (countries st) (headers st) (isLoading st) c
        (isEditModalOpen st) (isHeaderModalOpen st) (editingCountry st)
        (editingHeaders st) (editingHeaders_is_headers st).

Definition setIsEditModalOpen (b : bool) (st : AppState) : AppState :=
  mkApp (countries st) (headers st) (isLoading st) (selectedCountry st)
        b (isHeaderModalOpen st) (editingCountry st) (editingHeaders st)
        (editingHeaders_is_headers st).

Definition setIsHeaderModalOpen (b : bool) (st : AppState) : AppState :=
  mkApp (countries st) (headers st) (isLoading st) (selectedCountry st)
        (isEditModalOpen st) b (editingCountry st) (editingHeaders st)
        (editingHeaders_is_headers st).

Definition setEditingCountry (c : option CountryData) (st : AppState) : AppState :=
  mkApp (countries st) (headers st) (isLoading st) (selectedCountry st)
        (isEditModalOpen st) (isHeaderModalOpen st) c (editingHeaders st)
        (editingHeaders_is_headers st).

(** [setEditingHeaders] with a new object: the [onChange] handlers of the
    header form pass [{ ...editingHeaders, field: value }]. *)
Definition setEditingHeaders (h : TableHeaders) (st : AppState) : AppState :=
  mkApp (countries st) (headers st) (isLoading st) (selectedCountry st)
        (isEditModalOpen st) (isHeaderModalOpen st) (editingCountry st) h
        false.

(** ** Editing the table *)

Definition alert_required : string := "ID and country name are required.".

(** [handleSaveCountry].  The form record [editingCountry] is either [null]
    or the record built by [openEditModal] and the field editors, which
    always carries every field; a blank field is the empty string.  The
    result is the next state and the alert shown, if any. *)
Definition handleSaveCountry (st : AppState) : AppState * option string :=
  match editingCountry st with
  | None => (st, Some alert_required)
  | Some ec =>
    if negb (truthy (id ec)) || negb (truthy (pays ec))
    then (st, Some alert_required)
    else
      let newCountries := countries st in
      let index := findIndex (λ c, String.eqb (id c) (id ec)) newCountries in
      let newCountries :=
        if index >? -1
        then <[Z.to_nat index := ec]> newCountries
        else (newCountries ++ [ec])%list in
      let st := setCountries newCountries st in
      let st := setIsEditModalOpen false st in
      let st := setEditingCountry None st in
      let st :=
        match selectedCountry st with
        | Some sc =>
          if String.eqb (id sc) (id ec)
          then setSelectedCountry (Some ec) st else st
        | None => st
        end in
      (st, None)
  end.

(** The array written back by [handleSaveCountry] for a form record that
    passes the check. *)
Definition upserted (cs : list CountryData) (r : CountryData)
  : list CountryData :=
  let index := findIndex (λ c, String.eqb (id c) (id r)) cs in
  if index >? -1 then <[Z.to_nat index := r]> cs else cs ++ [r].

(** [handleDeleteCountry]; [confirmed] is the answer to [window.confirm]. *)
Definition handleDeleteCountry (confirmed : bool) (i : string) (st : AppState)
  : AppState :=
  if confirmed then
    let st' :=
      setCountries
        (List.filter (λ c, negb (String.eqb (id c) i)) (countries st)) st in
    match selectedCountry st with
    | Some sc => if String.eqb (id sc) i then setSelectedCountry None st' else st'
    | None => st'
    end
  else st.

(** [openEditModal]. *)
Definition blank_country : CountryData :=
  mkCountry "" "" "" "" "" "" "MANQUE_INFO".

Definition openEditModal (country : option CountryData) (st : AppState)
  : AppState :=
  setIsEditModalOpen true
    (setEditingCountry
       (Some match country with Some c => c | None => blank_country end) st).

(** The "Edit Headers" button: [setEditingHeaders(headers)], the object
    in state itself, and [setIsHeaderModalOpen(true)]. *)
Definition openHeaderModal (st : AppState) : AppState :=
  setIsHeaderModalOpen true
    (mkApp (countries st) (headers st) (isLoading st) (selectedCountry st)
           (isEditModalOpen st) (isHeaderModalOpen st) (editingCountry st)
           (headers st) true).

(** The "Save Headers" button of the header modal:
    [setHeaders(editingHeaders)] and [setIsHeaderModalOpen(false)].  When
    [editingHeaders] is the object that [headers] holds already, React
    leaves [headers] as it is; otherwise that object becomes the value of
    both variables. *)
Definition saveHeaders (st : AppState) : AppState :=
  setIsHeaderModalOpen false
    (if editingHeaders_is_headers st then st
     else mkApp (countries st) (editingHeaders st) (isLoading st)
                (selectedCountry st) (isEditModalOpen st)
                (isHeaderModalOpen st) (editingCountry st)
                (editingHeaders st) true).

(** * Persistence: remote store, local cache, in-memory defaults *)

(** The wire representation exchanged with /api/data.  Either member may be
    [null]: the server initialises its file with both of them [null]. *)
Record Payload := mkPayload {
  p_countries : option (list CountryData);
  p_headers : option TableHeaders
}.

(** The labels of the first render. *)
Definition initial_headers : TableHeaders :=
  mkHeaders "Country 🌍" "Former Network 🏛️" "Current Network 📡"
            "ITRF 📐" "Epoch ⏱️" "Status 🏷️".

(** The text of a request body, [JSON.stringify({ countries, headers })],
    built from the texts of its two members.  Strings are sequences of
    bytes here (UTF-8, the encoding of a request body), so the length of
    this text is the size of the body. *)
Definition json_key (k : string) : string :=
  String "034"%char (String.append k (String "034"%char ":")).

Definition json_body (countries_text headers_text : string) : string :=
  String.append "{"
    (String.append (json_key "countries")
       (String.append countries_text
          (String.append ","
             (String.append (json_key "headers")
                (String.append headers_text "}"))))).

(** [app.use(express.json())] (src/server.ts, before the routes).  With
    its default options the parser accepts a body of at most 100kb, that is
    102400 bytes; a longer one is answered with status 413 and the route is
    not reached.  The application sends [Content-Type: application/json]
    and the text of an object, which the parser reads back as that
    object. *)
Definition json_limit : Z := 102400.

Definition express_json (raw : string) : bool :=
  Z.of_nat (String.length raw) <=? json_limit.

(** What the application takes from its platform: the seed table of ./data
    and the JSON serialisation of the two cached values.  [parse_countries]
    and [parse_headers] return [None] where [JSON.parse] throws.  The seed
    table is a constant of the application; [AFRICA_DATA_fits] records that
    the request which sends it with the first labels passes the parser of
    the server. *)
Class Platform := {
  AFRICA_DATA : list CountryData;
  stringify_countries : list CountryData → string;
  stringify_headers : TableHeaders → string;
  parse_countries : string → option (list CountryData);
  parse_headers : string → option TableHeaders;
  AFRICA_DATA_fits :
    express_json (json_body (stringify_countries AFRICA_DATA)
                            (stringify_headers initial_headers)) = true
}.

(** The outcome of a [fetch]: the promise rejects, or a response arrives
    with a status code and a body; [body = None] is a body for which
    [response.json()] rejects. *)
Inductive Response (A : Type) : Type :=
| NetworkFailure
| Status (code : Z) (body : option A).
Arguments NetworkFailure {A}.
Arguments Status {A} code body.

Definition response_ok (code : Z) : bool := (200 <=? code) && (code <=? 299).

(** ** src/server.ts *)

(** [data_file] is the content of geodetic_data.json as [JSON.parse] reads
    it; [None] stands for a file that cannot be read or parsed. *)
Definition get_handler (data_file : option Payload) : Response Payload :=
  match data_file with
  | Some data => Status 200 (Some data)
  | None => Status 500 None
  end.

(** [write_ok] tells whether [fs.writeFileSync] returns normally. *)
Definition post_handler (write_ok : bool) (body : Payload)
    (data_file : option Payload) : option Payload * Response unit :=
  if write_ok then (Some body, Status 200 (Some tt))
  else (data_file, Status 500 None).

(** ** The browser and the server together *)

(** A call of [handleSaveAll] that is suspended at its [await]: the
    [countries] and [headers] of the render whose button was clicked, to
    which the rest of the call keeps referring, and the outcome of its
    request. *)
Record PendingSave := mkPending {
  saved_countries : list CountryData;
  saved_headers : TableHeaders;
  saved_response : Response unit
}.

Record World := mkWorld {
  app : AppState;
  localStorage : gmap string string;
  data_file : option Payload;
  alerts : list string;
  pending : list PendingSave
}.

Definition set_app (st : AppState) (w : World) : World :=
  mkWorld st (localStorage w) (data_file w) (alerts w) (pending w).

Definition localStorage_setItem (k v : string) (w : World) : World :=
  mkWorld (app w) (<[k := v]> (localStorage w)) (data_file w) (alerts w)
          (pending w).

Definition alert (msg : string) (w : World) : World :=
  mkWorld (app w) (localStorage w) (data_file w) (alerts w ++ [msg])
          (pending w).

Definition set_pending (ps : list PendingSave) (w : World) : World :=
  mkWorld (app w) (localStorage w) (data_file w) (alerts w) ps.

(** [fetch('/api/data')]; [up] tells whether the request reaches the server. *)
Definition fetch_GET (up : bool) (w : World) : Response Payload :=
  if up then get_handler (data_file w) else NetworkFailure.

Section Persistence.
Context `{Platform}.

(** [JSON.stringify(payload)], the body of a POST. *)
Definition request_body (body : Payload) : string :=
  json_body (from_option stringify_countries "null" (p_countries body))
            (from_option stringify_headers "null" (p_headers body)).

(** [fetch('/api/data', { method: 'POST', body })]: a request that reaches
    the server goes through [express.json()] and then to the route. *)
Definition fetch_POST (up write_ok : bool) (body : Payload) (w : World)
  : World * Response unit :=
  if up then
    if express_json (request_body body) then
      let '(file, r) := post_handler write_ok body (data_file w) in
      (mkWorld (app w) (localStorage w) file (alerts w) (pending w), r)
    else (w, Status 413 None)
  else (w, NetworkFailure).

Definition initial_app : AppState :=
  mkApp AFRICA_DATA initial_headers true None false false None initial_headers
        true.

Definition initial_world (ls : gmap string string) (file : option Payload)
  : World :=
  mkWorld initial_app ls file [] [].

(** The [catch] block of [fetchData].  A [JSON.parse] that throws leaves the
    rest of the block unexecuted. *)
Definition fetchData_catch (w : World) : World :=
  let savedData := localStorage w !! "geodetic_data" in
  let savedHeaders := localStorage w !! "table_headers" in
  let after_data : option World :=
    match savedData with
    | Some s =>
      if truthy s then
        match parse_countries s with
        | Some cs => Some (set_app (setCountries cs (app w)) w)
        | None => None
        end
      else Some w
    | None => Some w
    end in
  match after_data with
  | None => w
  | Some w1 =>
    match savedHeaders with
    | Some s =>
      if truthy s then
        match parse_headers s with
        | Some h => set_app (setHeaders h (app w1)) w1
        | None => w1
        end
      else w1
    | None => w1
    end
  end.

(** [if (data.headers) setHeaders(data.headers)]. *)
Definition adopt_headers (data : Payload) (w : World) : World :=
  match p_headers data with
  | Some h => set_app (setHeaders h (app w)) w
  | None => w
  end.

(** [fetchData], run once when [App] mounts.  [get_up] and [post_up] tell
    whether the GET and the seeding POST reach the server, [write_ok]
    whether the server can write its file.  The [headers] sent by the
    seeding POST are those of the first render. *)
Definition fetchData (get_up post_up write_ok : bool) (w : World) : World :=
  let w' :=
    match fetch_GET get_up w with
    | NetworkFailure => fetchData_catch w
    | Status code body =>
      if response_ok code then
        match body with
        | None => fetchData_catch w
        | Some data =>
          match p_countries data with
          | Some cs =>
            adopt_headers data (set_app (setCountries cs (app w)) w)
          | None =>
            let '(w1, r) :=
              fetch_POST post_up write_ok
                (mkPayload (Some AFRICA_DATA) (Some initial_headers)) w in
            match r with
            | NetworkFailure => fetchData_catch w1
            | Status _ _ => adopt_headers data w1
            end
          end
        end
      else w
    end in
  set_app (setIsLoading false (app w')) w'.

(** The two effects that mirror the state into [localStorage]. *)
Definition mirror_countries (w : World) : World :=
  if isLoading (app w) then w
  else localStorage_setItem "geodetic_data"
         (stringify_countries (countries (app w))) w.

Definition mirror_headers (w : World) : World :=
  if isLoading (app w) then w
  else localStorage_setItem "table_headers"
         (stringify_headers (headers (app w))) w.

(** Mounting [App]: [fetchData] settles, [isLoading] changes, and both
    mirror effects run because [isLoading] is among their dependencies. *)
Definition startup (get_up post_up write_ok : bool) (w : World) : World :=
  mirror_headers (mirror_countries (fetchData get_up post_up write_ok w)).

Definition alert_saved : string :=
  "Toutes les modifications ont été enregistrées avec succès dans la base de données !".

Definition alert_save_failed : string :=
  "Erreur lors de l'enregistrement sur le serveur. Les données ont été sauvegardées localement dans votre navigateur.".

(** [handleSaveAll], the "Enregistrer" button, up to its [await]: the
    request is sent with the table and the labels of the current render;
    [up] and [write_ok] decide its outcome as for [fetch_POST]. *)
Definition handleSaveAll_request (up write_ok : bool) (w : World) : World :=
  let cs := countries (app w) in
  let h := headers (app w) in
  let '(w1, r) := fetch_POST up write_ok (mkPayload (Some cs) (Some h)) w in
  set_pending (pending w1 ++ [mkPending cs h r]) w1.

(** The [catch] block of [handleSaveAll]. *)
Definition handleSaveAll_catch (cs : list CountryData) (h : TableHeaders)
    (w : World) : World :=
  let w := localStorage_setItem "geodetic_data" (stringify_countries cs) w in
  let w := localStorage_setItem "table_headers" (stringify_headers h) w in
  alert alert_save_failed w.

(** [handleSaveAll] from its [await] on, for the suspended call [p]. *)
Definition handleSaveAll_resume (p : PendingSave) (w : World) : World :=
  let cs := saved_countries p in
  let h := saved_headers p in
  match saved_response p with
  | NetworkFailure => handleSaveAll_catch cs h w
  | Status code _ =>
    if response_ok code then
      let w := localStorage_setItem "geodetic_data"
                 (stringify_countries cs) w in
      let w := localStorage_setItem "table_headers"
                 (stringify_headers h) w in
      alert alert_saved w
    else handleSaveAll_catch cs h w
  end.

(** The message [handleSaveAll] shows for a response. *)
Definition save_alert (r : Response unit) : string :=
  match r with
  | NetworkFailure => alert_save_failed
  | Status code _ => if response_ok code then alert_saved else alert_save_failed
  end.

(** The response of the [k]-th suspended call arrives. *)
Definition handleSaveAll_settle (k : nat) (w : World) : World :=
  match pending w !! k with
  | Some p => handleSaveAll_resume p (set_pending (delete k (pending w)) w)
  | None => w
  end.

(** [handleSaveAll] when nothing else happens before the response. *)
Definition handleSaveAll (up write_ok : bool) (w : World) : World :=
  let w1 := handleSaveAll_request up write_ok w in
  handleSaveAll_settle (length (pending w)) w1.

End Persistence.

#[global] Arguments fetch_POST {_} _ _ _ _ : simpl never.

(** ** User interaction after startup *)

Inductive Event : Type :=
| OpenEditModal (c : option CountryData)
| EditCountry (ec : CountryData)
| SaveCountry
| DeleteCountry (i : string) (confirmed : bool)
| EditHeaders (h : TableHeaders)
| SaveHeaders
| SaveAll (up write_ok : bool)
| SaveAllSettled (k : nat)
| SelectCountry (c : option CountryData)
| OpenHeaderModal.

Section Interaction.
Context `{Platform}.

(** One event handler followed by the effects React runs after the render
    it causes.  An effect runs again when one of its dependencies is not
    the value ([Object.is]) of the render before.  A handler that calls
    [setCountries] does so with a new array ([[...countries]],
    [countries.filter(...)]) and re-runs the effect on [countries]; "Save
    Headers" re-runs the effect on [headers] when [editingHeaders] is not
    the object that [headers] holds already, that is when the form was
    edited since "Edit Headers".  [SaveAll] is the click on "Enregistrer"
    and [SaveAllSettled] the arrival of a response: other events may come
    in between. *)
Definition step (ev : Event) (w : World) : World :=
  match ev with
  | OpenEditModal c => set_app (openEditModal c (app w)) w
  | EditCountry ec => set_app (setEditingCountry (Some ec) (app w)) w
  | SaveCountry =>
    match handleSaveCountry (app w) with
    | (st, Some msg) => alert msg (set_app st w)
    | (st, None) => mirror_countries (set_app st w)
    end
  | DeleteCountry i confirmed =>
    if confirmed
    then mirror_countries (set_app (handleDeleteCountry true i (app w)) w)
    else w
  | EditHeaders h => set_app (setEditingHeaders h (app w)) w
  | SaveHeaders =>
    if editingHeaders_is_headers (app w)
    then set_app (saveHeaders (app w)) w
    else mirror_headers (set_app (saveHeaders (app w)) w)
  | SaveAll up write_ok => handleSaveAll_request up write_ok w
  | SaveAllSettled k => handleSaveAll_settle k w
  | SelectCountry c => set_app (setSelectedCountry c (app w)) w
  | OpenHeaderModal => set_app (openHeaderModal (app w)) w
  end.

Definition run (evs : list Event) (w : World) : World :=
  foldl (λ w ev, step ev w) w evs.

(** The two slots of the local cache hold the serialised current table
    and labels. *)
Definition countries_cached (w : World) : Prop :=
  localStorage w !! "geodetic_data"
    = Some (stringify_countries (countries (app w))).

Definition headers_cached (w : World) : Prop :=
  localStorage w !! "table_headers"
    = Some (stringify_headers (headers (app w))).

Definition cache_in_sync (w : World) : Prop :=
  countries_cached w ∧ headers_cached w.



End Interaction.

(** * The map: [AfricaMap] *)

Definition ISO3_TO_ISO2 : gmap string string :=
  list_to_map [
    ("ZAF", "za"); ("DZA", "dz"); ("AGO", "ao"); ("BEN", "bj"); ("BWA", "bw");
    ("BFA", "bf"); ("BDI", "bi"); ("CMR", "cm"); ("CPV", "cv"); ("COM", "km");
    ("COG", "cg"); ("CIV", "ci"); ("DJI", "dj"); ("EGY", "eg"); ("ERI", "er");
    ("SWZ", "sz"); ("ETH", "et"); ("GAB", "ga"); ("GMB", "gm"); ("GHA", "gh");
    ("GIN", "gn"); ("GNQ", "gq"); ("GNB", "gw"); ("KEN", "ke"); ("LSO", "ls");
    ("LBR", "lr"); ("LBY", "ly"); ("MDG", "mg"); ("MWI", "mw"); ("MLI", "ml");
    ("MAR", "ma"); ("MUS", "mu"); ("MRT", "mr"); ("MOZ", "mz"); ("NAM", "na");
    ("NER", "ne"); ("NGA", "ng"); ("UGA", "ug"); ("COD", "cd"); ("CAF", "cf");
    ("RWA", "rw"); ("ESH", "eh"); ("STP", "st"); ("SEN", "sn"); ("SYC", "sc");
    ("SLE", "sl"); ("SOM", "so"); ("SDN", "sd"); ("SSD", "ss"); ("TZA", "tz");
    ("TCD", "td"); ("TGO", "tg"); ("TUN", "tn"); ("ZMB", "zm"); ("ZWE", "zw")
  ].

(** [String.prototype.toUpperCase] on ASCII text: each of the letters [a]
    to [z] is mapped by itself and every other character is kept.  The
    mapping of the language outside ASCII is not modelled. *)
Definition upper_ascii (c : ascii) : ascii :=
  let n := nat_of_ascii c in
  if ((97 <=? n) && (n <=? 122))%nat then ascii_of_nat (n - 32) else c.

Fixpoint toUpperCase (s : string) : string :=
  match s with
  | EmptyString => EmptyString
  | String c s' => String (upper_ascii c) (toUpperCase s')
  end.

(** [getEmojiFlag], as the code points handed to [String.fromCodePoint];
    the empty list is the empty string. *)
Definition getEmojiFlag (iso3 : string) : list Z :=
  match ISO3_TO_ISO2 !! toUpperCase iso3 with
  | Some iso2 =>
    if truthy iso2
    then (λ c, Z.of_nat (nat_of_ascii c) + 127397)
           <$> list_ascii_of_string (toUpperCase iso2)
    else []
  | None => []
  end.

(** The alias table of the topology effect: the own properties of the
    object literal [idMap]. *)
Definition idMap : gmap string string :=
  list_to_map [
    ("SDS", "SSD"); ("SS", "SSD"); ("SZL", "SWZ"); ("ZAR", "COD");
    ("DRC", "COD"); ("KM", "COM"); ("MU", "MUS"); ("SC", "SYC");
    ("CV", "CPV"); ("ST", "STP"); ("REU", "REU"); ("MYT", "COM")
  ].

(** [Array.prototype.includes] on strings. *)
Definition includes (l : list string) (s : string) : bool :=
  existsb (String.eqb s) l.

(** The names of the members that an object literal inherits from
    [Object.prototype]: eleven functions, and the accessor [__proto__],
    which yields the prototype itself. *)
Definition Object_prototype_keys : list string := [
  "constructor"; "__defineGetter__"; "__defineSetter__"; "hasOwnProperty";
  "__lookupGetter__"; "__lookupSetter__"; "isPrototypeOf";
  "propertyIsEnumerable"; "toString"; "valueOf"; "__proto__";
  "toLocaleString"
].

(** The values that an identifier takes in the join: a string, as in the
    topology document and in the records, or the member of
    [Object.prototype] of the given name.  A string is used as an
    identifier without further notice. *)
Inductive IdValue : Type :=
| IdString (s : string)
| IdInherited (name : string).

Coercion IdString : string >-> IdValue.

#[global] Instance IdValue_eq_dec : EqDecision IdValue.
Proof. solve_decision. Defined.

(** [idMap[key]], a property read on an object literal: the entry of the
    table, else the inherited member of that name, else [undefined]. *)
Definition idMap_get (key : string) : option IdValue :=
  match idMap !! key with
  | Some v => Some (IdString v)
  | None =>
    if includes Object_prototype_keys key then Some (IdInherited key)
    else None
  end.

(** [idMap[f.id] || f.id].  A function or an object is truthy.  Used as a
    property key, an inherited member is converted to its text
    ([function toString() { [native code] }], [[object Object]]), which
    names no property of [idMap]: the read is [undefined] and the member
    itself is the result. *)
Definition normalize (fid : IdValue) : IdValue :=
  match fid with
  | IdString key =>
    match idMap_get key with
    | Some (IdString v) => if truthy v then IdString v else fid
    | Some (IdInherited name) => IdInherited name
    | None => fid
    end
  | IdInherited _ => fid
  end.
Arguments normalize : simpl never.

(** A feature of the GeoJSON document: its identifier, [properties.name]
    and its geometry, which the application never inspects. *)
Record Feature (G : Type) := mkFeature {
  f_id : string;
  f_name : string;
  f_geometry : G
}.
Arguments mkFeature {G} _ _ _.
Arguments f_id {G} _.
Arguments f_name {G} _.
Arguments f_geometry {G} _.

(** [{ ...f, id }]. *)
Definition with_id {G : Type} (f : Feature G) (i : string) : Feature G :=
  mkFeature i (f_name f) (f_geometry f).

(** [data.map(d => d.id)]. *)
Definition africanIsoCodes (data : list CountryData) : list string :=
  id <$> data.

(** [africanIsoCodes.includes(id)] for the value of [idMap[f.id] || f.id]:
    the codes are strings, and no string is the same value as a function or
    an object. *)
Definition includes_value (l : list string) (v : IdValue) : bool :=
  match v with
  | IdString s => includes l s
  | IdInherited _ => false
  end.

(** The callback of [map], [f => ({ ...f, id: idMap[f.id] || f.id })].  A
    [Feature] carries a string as its identifier, as every feature that
    passes the filter does ([rewrite_id_retained] below); the callback is
    not defined here on a feature whose new identifier is no string. *)
Definition rewrite_id {G : Type} (f : Feature G) : option (Feature G) :=
  match normalize (f_id f) with
  | IdString s => Some (with_id f s)
  | IdInherited _ => None
  end.
Arguments rewrite_id : simpl never.

(** The [features] of the collection passed to [setGeoData]: [filter],
    then [map]. *)
Definition africa_features {G : Type} (data : list CountryData)
    (features : list (Feature G)) : list (Feature G) :=
  omap rewrite_id
    (List.filter
       (λ f, includes_value (africanIsoCodes data) (normalize (f_id f)))
       features).

(** ** Rendering *)

(** The part of d3-geo the render effect calls, for geometries of type [G]:
    [fitExtent] is [d3.geoMercator().fitExtent(extent, collection)],
    [project] applies the projection to a longitude/latitude pair,
    [geoPath] is [d3.geoPath().projection(projection)] applied to a feature
    and [path_centroid] its [centroid]. *)
Class D3 (G : Type) := {
  Projection : Type;
  fitExtent : (Q * Q) * (Q * Q) → list (Feature G) → Projection;
  project : Projection → Q * Q → Q * Q;
  geoPath : Projection → Feature G → string;
  path_centroid : Projection → Feature G → Q * Q
}.

Record Size := mkSize { width : Q; height : Q }.

(** [a || b] on numbers that are not NaN: zero is falsy. *)
Definition num_or (a b : Q) : Q := if Qeq_bool a 0 then b else a.

(** The text of a label: [`${flag} ${name}`] or a plain name. *)
Inductive LabelText : Type :=
| Flagged (flag : list Z) (name : string)
| Plain (name : string).

Record PathNode := mkPath {
  path_datum : string;
  path_d : string;
  path_selected : bool;
  path_fill : string;
  path_title : string
}.

Record TextNode := mkText {
  text_datum : string;
  text_translate : Q * Q;
  text_font_size : string;
  text_text : LabelText
}.

Record MarkerNode := mkMarker {
  marker_datum : string;
  marker_cx : Q;
  marker_cy : Q;
  marker_r : Q;
  marker_fill : string;
  marker_selected : bool;
  marker_text_x : Q;
  marker_text_y : Q;
  marker_font_size : string;
  marker_text : LabelText
}.

(** What the render effect appends to the cleared [svg]. *)
Inductive SvgNode : Type :=
| CountryPath (p : PathNode)
| CountryLabel (t : TextNode)
| IslandMarker (m : MarkerNode).

(** The [fill] callback of the country paths. *)
Definition country_fill (data : list CountryData) (d_id : string) : string :=
  match find (λ c, String.eqb (id c) d_id) data with
  | None => "#f1f5f9"
  | Some country =>
    if String.eqb (status country) "COMPLET" then "#93c5fd"
    else if String.eqb (status country) "SANS_EPOQUE" then "#fde047"
    else if String.eqb (status country) "MANQUE_INFO" then "#fca5a5"
    else if String.eqb (status country) "CANEVA_LOCAL" then "#c084fc"
    else if String.eqb (status country) "ACTIF" then "#cbd5e1"
    else "#f1f5f9"
  end.

(** The [fill] callback of the island circles. *)
Definition island_fill (data : list CountryData) (d_id : string) : string :=
  match find (λ c, String.eqb (id c) d_id) data with
  | None => "#f1f5f9"
  | Some country =>
    if String.eqb (status country) "COMPLET" then "#93c5fd"
    else if String.eqb (status country) "SANS_EPOQUE" then "#fde047"
    else if String.eqb (status country) "MANQUE_INFO" then "#fca5a5"
    else if String.eqb (status country) "CANEVA_LOCAL" then "#c084fc"
    else if String.eqb (status country) "ACTIF" then "#cbd5e1"
    else "#f1f5f9"
  end.

(** [selectedCountryId === d.id]. *)
Definition is_selected (selectedCountryId : option string) (d_id : string)
  : bool :=
  match selectedCountryId with
  | Some s => String.eqb s d_id
  | None => false
  end.

Definition islandIds : list string := ["CPV"; "COM"; "MUS"; "SYC"; "STP"].

Record Island := mkIsland {
  island_id : string;
  island_name : string;
  island_coords : Q * Q
}.

Definition manualIslands : list Island := [
  mkIsland "MUS" "Mauritius" (57.5522, -20.3484)%Q;
  mkIsland "SYC" "Seychelles" (55.4920, -4.6796)%Q;
  mkIsland "COM" "Comoros" (43.3333, -11.6450)%Q;
  mkIsland "CPV" "Cape Verde" (-23.0418, 16.0020)%Q;
  mkIsland "STP" "Sao Tome and Principe" (6.7333, 0.1864)%Q
].

Section Render.
Context {G : Type} `{D3 G}.

Definition country_path (projection : Projection)
    (selectedCountryId : option string) (data : list CountryData)
    (d : Feature G) : PathNode :=
  mkPath (f_id d) (geoPath projection d)
         (is_selected selectedCountryId (f_id d))
         (country_fill data (f_id d)) (f_name d).

Definition country_label (projection : Projection) (w : Q)
    (data : list CountryData) (d : Feature G) : TextNode :=
  mkText (f_id d) (path_centroid projection d)
         (if Qlt_le_dec w 500 then "6px" else "8px")
         match find (λ c, String.eqb (id c) (f_id d)) data with
         | Some country => Flagged (getEmojiFlag (id country)) (pays country)
         | None => Plain (f_name d)
         end.

Definition island_marker (projection : Projection) (w : Q)
    (selectedCountryId : option string) (data : list CountryData)
    (d : Island) : MarkerNode :=
  mkMarker (island_id d)
           (project projection (island_coords d)).1
           (project projection (island_coords d)).2
           5
           (island_fill data (island_id d))
           (is_selected selectedCountryId (island_id d))
           (project projection (island_coords d)).1
           ((project projection (island_coords d)).2 - 8)%Q
           (if Qlt_le_dec w 500 then "5px" else "7px")
           (Flagged (getEmojiFlag (island_id d)) (island_name d)).

(** The render effect.  [geoData] is the state set by the topology effect
    ([None] until the document has arrived), [svgRef] the client size of
    the mounted [svg] element ([None] while there is none), [dimensions]
    the size last reported by the resize observer, and [svg] the children
    of the element before the effect runs; the result is its children
    afterwards. *)
Definition render (geoData : option (list (Feature G)))
    (svgRef : option Size) (dimensions : Size)
    (selectedCountryId : option string) (data : list CountryData)
    (svg : list SvgNode) : list SvgNode :=
  match geoData, svgRef with
  | Some features, Some client =>
    let w := num_or (width dimensions) (width client) in
    let h := num_or (height dimensions) (height client) in
    if Qeq_bool w 0 || Qeq_bool h 0 then []
    else
      let projection :=
        fitExtent ((10, 10), (w - 10, h - 10))%Q features in
      (CountryPath <$>
         (country_path projection selectedCountryId data <$> features))
      ++ (CountryLabel <$> (country_label projection w data <$> features))
      ++ (IslandMarker <$>
            (island_marker projection w selectedCountryId data
               <$> manualIslands))
  | _, _ => svg
  end.

(** The markers among the drawn nodes. *)
Definition markers (svg : list SvgNode) : list MarkerNode :=
  omap (λ n, match n with IslandMarker m => Some m | _ => None end) svg.

Definition paths (svg : list SvgNode) : list PathNode :=
  omap (λ n, match n with CountryPath p => Some p | _ => None end) svg.

End Render.

(** * Statistics *)

(** ** JavaScript numbers

    A finite IEEE 754 binary64 value is a rational; the arithmetic of the
    language is the exact operation followed by rounding to the nearest
    value with a 53-bit significand, ties to even.  The exponent range is
    not modelled: the quotients and products below stay far inside it. *)

(** The largest [k] with [2 ^ k <= x], for [0 < x]. *)
Definition Qlog2 (x : Q) : Z :=
  let k := Z.log2 (Qnum x) - Z.log2 (Zpos (Qden x)) in
  if Qle_bool (2 ^ k) x then k else k - 1.

(** Rounding to the nearest integer, ties to even. *)
Definition Qround_even (y : Q) : Z :=
  let f := Qfloor y in
  match (y - inject_Z f ?= 1 # 2)%Q with
  | Lt => f
  | Gt => f + 1
  | Eq => if Z.even f then f else f + 1
  end.

Definition double_pos (x : Q) : Q :=
  let e := Qlog2 x - 52 in
  (inject_Z (Qround_even (x / 2 ^ e)) * 2 ^ e)%Q.

Definition double (x : Q) : Q :=
  match Qnum x with
  | Z0 => 0%Q
  | Zpos _ => double_pos x
  | Zneg _ => (- double_pos (- x))%Q
  end.

Definition num_div (a b : Q) : Q := double (a / b).
Definition num_mul (a b : Q) : Q := double (a * b).

(** [x.toFixed(1)] for [0 <= x < 1e21]: the digits of the integer [n] for
    which [n / 10 - x] is as close to zero as possible, the larger one when
    there are two, with a decimal point before the last digit.  The result
    is represented by [n]. *)
Definition toFixed1 (x : Q) : Z := Qfloor (x * 10 + (1 # 2)).

(** Half the gap between 1 and the next value: the largest relative error
    of one rounding. *)
Definition ulp53 : Q := 1 # 9007199254740992.

(** ** The statistics overlay *)

Record StatItem := mkItem {
  item_label : string;
  item_status : string;
  item_color : string
}.

Definition stat_items : list StatItem := [
  mkItem "Complete" "COMPLET" "bg-[#93c5fd]";
  mkItem "No Epoch" "SANS_EPOQUE" "bg-[#fde047]";
  mkItem "Missing" "MANQUE_INFO" "bg-[#fca5a5]";
  mkItem "Local" "CANEVA_LOCAL" "bg-[#c084fc]"
].

(** The value of [percentage]: the number [0], or the string produced by
    [toFixed(1)]. *)
Inductive Percentage : Type :=
| PctNumber (n : Z)
| PctFixed1 (tenths : Z).

Record StatRow := mkRow {
  row_item : StatItem;
  row_count : nat;
  row_percentage : Percentage
}.

Definition stat_row (data : list CountryData) (item : StatItem) : StatRow :=
  let count :=
    length (List.filter (λ c, String.eqb (status c) (item_status item)) data) in
  let percentage :=
    if (0 <? length data)%nat
    then PctFixed1
           (toFixed1
              (num_mul
                 (num_div (inject_Z (Z.of_nat count))
                          (inject_Z (Z.of_nat (length data))))
                 100))
    else PctNumber 0 in
  mkRow item count percentage.

Definition statistics (data : list CountryData) : list StatRow :=
  stat_row data <$> stat_items.

(** * Further parts of [App] *)

(** [getFlagUrl]; [None] is [null]. *)
Definition getFlagUrl (iso3 : string) : option string :=
  match ISO3_TO_ISO2 !! toUpperCase iso3 with
  | Some iso2 =>
    if truthy iso2
    then Some (String.append "https://flagcdn.com/w40/"
                 (String.append iso2 ".png"))
    else None
  | None => None
  end.

(** [String.prototype.toLowerCase] on ASCII text: each of the letters [A]
    to [Z] is mapped by itself and every other character is kept.  The
    mapping of the language outside ASCII (which depends on neighbouring
    characters and may change the length) is not modelled: what is proved
    with [toLowerCase] below is stated for text that [is_ascii] accepts. *)
Definition lower_ascii (c : ascii) : ascii :=
  let n := nat_of_ascii c in
  if ((65 <=? n) && (n <=? 90))%nat then ascii_of_nat (n + 32) else c.

Fixpoint toLowerCase (s : string) : string :=
  match s with
  | EmptyString => EmptyString
  | String c s' => String (lower_ascii c) (toLowerCase s')
  end.

(** Text made of ASCII characters only, on which the two case mappings
    above are those of the language. *)
Definition is_ascii (s : string) : bool :=
  forallb (λ c, (nat_of_ascii c <? 128)%nat) (list_ascii_of_string s).

(** [s.includes(q)] on strings: [q] occurs in [s]. *)
Fixpoint string_includes (s q : string) : bool :=
  String.prefix q s
  || match s with
     | EmptyString => false
     | String _ s' => string_includes s' q
     end.

(** The predicate of [filteredData]. *)
Definition matches_query (searchQuery : string) (c : CountryData) : bool :=
  string_includes (toLowerCase (pays c)) (toLowerCase searchQuery)
  || string_includes (toLowerCase (itrf c)) (toLowerCase searchQuery)
  || string_includes (toLowerCase (reseauActuel c)) (toLowerCase searchQuery).

(** [filteredData], the rows of the table tab. *)
Definition filteredData (searchQuery : string) (countries : list CountryData)
  : list CountryData :=
  List.filter (matches_query searchQuery) countries.

(** The [disabled] attribute of the "ISO Code (ID)" input of the country
    form. *)
Definition id_input_disabled (countries : list CountryData)
    (editingCountry : CountryData) : bool :=
  match find (λ c, String.eqb (id c) (id editingCountry)) countries with
  | Some _ => true
  | None => false
  end
  && negb (findIndex (λ c, String.eqb (id c) (id editingCountry)) countries
           =? -1).

(** The argument that the click handlers of the paths and of the island
    markers pass to [onCountryClick]: [country || null]. *)
Definition click_target (data : list CountryData) (d_id : string)
  : option CountryData :=
  find (λ c, String.eqb (id c) d_id) data.

(** The table invariant of the data model: ids are unique, and no id or
    name is empty. *)
Definition table_valid (cs : list CountryData) : Prop :=
  NoDup (id <$> cs) ∧ Forall (λ c, id c ≠ "" ∧ pays c ≠ "") cs.

(** The tenths that the overlay shows for [item] on a table that is not
    empty: the argument of [PctFixed1] in [stat_row]. *)
Definition shown_tenths (data : list CountryData) (item : StatItem) : Z :=
  toFixed1
    (num_mul
       (num_div (inject_Z (Z.of_nat (row_count (stat_row data item))))
                (inject_Z (Z.of_nat (length data))))
       100).

(** The statuses that have a row in the statistics overlay. *)
Definition tracked (s : string) : bool :=
  existsb (String.eqb s) (item_status <$> stat_items).

Section Sessions.
Context `{Platform}.

(** A new session in the same browser against the same server: the page
    is loaded again. *)
Definition reload (get_up post_up write_ok : bool) (w : World) : World :=
  startup get_up post_up write_ok
    (initial_world (localStorage w) (data_file w)).


(** The selected record, if any, is a record of the table. *)
Definition selected_in_table (st : AppState) : Prop :=
  ∀ sc, selectedCountry st = Some sc → sc ∈ countries st.

End Sessions.

(** * Sample data *)

Module Sample.

Definition SEN : CountryData :=
  mkCountry "SEN" "Senegal" "Yoff" "RRS" "ITRF2008" "2015.0" "MANQUE_INFO".

Definition SEN_done : CountryData :=
  mkCountry "SEN" "Senegal" "Yoff" "RRS" "ITRF2008" "2015.0" "COMPLET".

Definition COM : CountryData :=
  mkCountry "COM" "Comoros" "" "" "" "" "CANEVA_LOCAL".

Definition CIV : CountryData :=
  mkCountry "CIV" "Ivory Coast" "Abidjan 1987" "RGCI" "ITRF2014" "" "SANS_EPOQUE".

Definition nameless : CountryData :=
  mkCountry "TGO" "" "" "" "" "" "MANQUE_INFO".

(** A serialisation that keeps the identifiers only: enough to tell the
    sample tables apart. *)
Definition platform : Platform := {|
  AFRICA_DATA := [SEN; CIV];
  stringify_countries := λ cs, String.concat "," (id <$> cs);
  stringify_headers := hdr_country;
  parse_countries := λ s, if String.eqb s "COM" then Some [COM] else None;
  parse_headers := λ s, None;
  AFRICA_DATA_fits := eq_refl
|}.

Definition labels_fr : TableHeaders :=
  mkHeaders "Pays" "Ancien reseau" "Reseau actuel" "ITRF" "Epoque" "Statut".

Definition state : AppState :=
  mkApp [SEN; CIV] initial_headers false None false false None initial_headers
        true.

(** A flat "projection": the identity on coordinates. *)
Definition d3 : D3 unit := {|
  Projection := unit;
  fitExtent := λ _ _, tt;
  project := λ _ p, p;
  geoPath := λ _ f, f_id f;
  path_centroid := λ _ _, (0, 0)%Q
|}.

Definition mayotte : Feature unit := mkFeature "MYT" "Mayotte" tt.
Definition comoros : Feature unit := mkFeature "KM" "Comoros" tt.
Definition france : Feature unit := mkFeature "FRA" "France" tt.

End Sample.

(** A second platform for the examples, whose parser reads back what the
    serialiser writes for the sample tables and labels. *)
Module Demo.

Definition parse_table (s : string) : option (list CountryData) :=
  if String.eqb s "SEN,CIV" then Some [Sample.SEN; Sample.CIV]
  else if String.eqb s "SEN,CIV,COM"
       then Some [Sample.SEN_done; Sample.CIV; Sample.COM]
  else if String.eqb s "COM" then Some [Sample.COM]
  else None.

Definition parse_labels (s : string) : option TableHeaders :=
  if String.eqb s "Pays" then Some Sample.labels_fr
  else if String.eqb s (hdr_country initial_headers) then Some initial_headers
  else None.

Definition platform : Platform := {|
  AFRICA_DATA := [Sample.SEN; Sample.CIV];
  stringify_countries := λ cs, String.concat "," (id <$> cs);
  stringify_headers := hdr_country;
  parse_countries := parse_table;
  parse_headers := parse_labels;
  AFRICA_DATA_fits := eq_refl
|}.

Definition ACT : CountryData :=
  mkCountry "ZAF" "South Africa" "Cape" "TrigNet" "ITRF2008" "2010.0" "ACTIF".

End Demo.

(** * Properties of the table operations *)

Lemma truthy_false_iff (s : string) : truthy s = false ↔ s = "".
Proof.
  unfold truthy. destruct (String.eqb_spec s ""); simpl; split; congruence.
Qed.

Lemma truthy_true_iff (s : string) : truthy s = true ↔ s ≠ "".
Proof.
  unfold truthy. destruct (String.eqb_spec s ""); simpl; split; congruence.
Qed.

(** [findIndex_from] either finds nothing, or returns the offset of the
    first element that satisfies the predicate. *)
Lemma findIndex_from_cases {A : Type} (p : A → bool) (l : list A) (i : Z) :
  (findIndex_from p l i = -1 ∧ Forall (λ x, p x = false) l)
  ∨ (∃ k x, findIndex_from p l i = i + Z.of_nat k
            ∧ l !! k = Some x ∧ p x = true
            ∧ ∀ j y, (j < k)%nat → l !! j = Some y → p y = false).
Proof.
  revert i. induction l as [|a l IH]; intros i; simpl.
  - left. split; [reflexivity | constructor].
  - destruct (p a) eqn:Hpa.
    + right. exists 0%nat, a.
      split; [lia |]. split; [reflexivity |]. split; [exact Hpa |].
      intros j y Hj. lia.
    + destruct (IH (i + 1)) as [[Hn Hall] | (k & x & Hk & Hx & Hpx & Hmin)].
      * left. split; [exact Hn | constructor; assumption].
      * right. exists (S k), x.
        split; [lia |]. split; [exact Hx |]. split; [exact Hpx |].
        intros [|j] y Hj Hy; simpl in Hy.
        -- congruence.
        -- apply (Hmin j); [lia | exact Hy].
Qed.

Lemma handleSaveCountry_accepts (st : AppState) (r : CountryData) :
  editingCountry st = Some r → id r ≠ "" → pays r ≠ "" →
  countries (handleSaveCountry st).1 = upserted (countries st) r
  ∧ (handleSaveCountry st).2 = None.
Proof.
  intros He Hid Hpays. unfold handleSaveCountry. rewrite He.
  apply truthy_true_iff in Hid. apply truthy_true_iff in Hpays.
  rewrite Hid, Hpays. simpl.
  split; [| reflexivity].
  destruct (selectedCountry st) as [sc|]; simpl; [| reflexivity].
  destruct (String.eqb (id sc) (id r)); reflexivity.
Qed.

Lemma upserted_absent (cs : list CountryData) (r : CountryData) :
  (∀ c, c ∈ cs → id c ≠ id r) → upserted cs r = cs ++ [r].
Proof.
  intros Habs. unfold upserted, findIndex.
  destruct (findIndex_from_cases (λ c, String.eqb (id c) (id r)) cs 0)
    as [[Hn _] | (k & x & _ & Hx & Hpx & _)].
  - rewrite Hn. reflexivity.
  - exfalso. apply String.eqb_eq in Hpx.
    apply (Habs x); [| exact Hpx].
    apply list_elem_of_lookup. eauto.
Qed.

Lemma NoDup_ids_lookup (cs : list CountryData) (i j : nat) (c d : CountryData) :
  NoDup (id <$> cs) → cs !! i = Some c → cs !! j = Some d → id c = id d →
  i = j.
Proof.
  intros Hnd Hi Hj Heq.
  apply (NoDup_lookup (id <$> cs) i j (id c)); [exact Hnd | |].
  - rewrite list_lookup_fmap, Hi. reflexivity.
  - rewrite list_lookup_fmap, Hj. simpl. congruence.
Qed.

Lemma upserted_present (cs : list CountryData) (r c : CountryData) (i : nat) :
  NoDup (id <$> cs) → cs !! i = Some c → id c = id r →
  upserted cs r = <[i := r]> cs.
Proof.
  intros Hnd Hi Hid. unfold upserted, findIndex.
  destruct (findIndex_from_cases (λ c, String.eqb (id c) (id r)) cs 0)
    as [[_ Hall] | (k & x & Hk & Hx & Hpx & _)].
  - exfalso. rewrite Forall_forall in Hall.
    assert (Hc : c ∈ cs) by (apply list_elem_of_lookup; eauto).
    specialize (Hall c Hc). simpl in Hall.
    apply String.eqb_neq in Hall. contradiction.
  - rewrite Hk. apply String.eqb_eq in Hpx.
    assert (k = i) as -> by (eapply NoDup_ids_lookup; eauto; congruence).
    replace (0 + Z.of_nat i >? -1) with true
      by (symmetry; apply Z.gtb_lt; lia).
    replace (Z.to_nat (0 + Z.of_nat i)) with i by lia.
    reflexivity.
Qed.

Lemma filter_none {A : Type} (P : A → Prop) `{∀ x, Decision (P x)}
    (l : list A) :
  (∀ x, x ∈ l → ¬ P x) → filter P l = [].
Proof.
  induction l as [|a l IH]; intros Hl; [reflexivity |].
  rewrite filter_cons_False by (apply Hl; left).
  apply IH. intros x Hx. apply Hl. right. exact Hx.
Qed.

Lemma query_upserted (cs : list CountryData) (r : CountryData) :
  NoDup (id <$> cs) → filter (λ c, id c = id r) (upserted cs r) = [r].
Proof.
  intros Hnd.
  destruct (findIndex_from_cases (λ c, String.eqb (id c) (id r)) cs 0)
    as [[_ Hall] | (k & x & _ & Hx & Hpx & _)].
  - rewrite Forall_forall in Hall.
    assert (Habs : ∀ c, c ∈ cs → id c ≠ id r).
    { intros c Hc. apply String.eqb_neq. apply (Hall c Hc). }
    rewrite upserted_absent by exact Habs.
    rewrite filter_app, filter_none by exact Habs.
    rewrite filter_cons_True by reflexivity. reflexivity.
  - apply String.eqb_eq in Hpx.
    rewrite (upserted_present cs r x k) by assumption.
    assert (Hk : (k < length cs)%nat) by (eapply lookup_lt_Some; eauto).
    rewrite insert_take_drop by exact Hk.
    rewrite filter_app, filter_cons_True by reflexivity.
    rewrite !filter_none; [reflexivity | |].
    + intros c Hc. apply list_elem_of_lookup in Hc as [j Hj].
      rewrite lookup_drop in Hj. intros Heq.
      assert (S k + j = k)%nat by (eapply NoDup_ids_lookup; eauto; congruence).
      lia.
    + intros c Hc. apply list_elem_of_lookup in Hc as [j Hj].
      apply lookup_take_Some in Hj as [Hj Hlt]. intros Heq.
      assert (j = k) by (eapply NoDup_ids_lookup; eauto; congruence).
      lia.
Qed.

(** C4. On a table with unique ids, saving a form record [r] whose id and
    name are not empty replaces the entry that has the id of [r] when there
    is one and appends [r] otherwise; afterwards the records with that id
    are exactly [r], once. *)
Theorem upsert_then_query (st : AppState) (r : CountryData) :
  NoDup (id <$> countries st) → id r ≠ "" → pays r ≠ "" →
  editingCountry st = Some r →
  let st' := (handleSaveCountry st).1 in
  (handleSaveCountry st).2 = None
  ∧ (∀ i c, countries st !! i = Some c → id c = id r →
       countries st' = <[i := r]> (countries st))
  ∧ ((∀ c, c ∈ countries st → id c ≠ id r) →
       countries st' = countries st ++ [r])
  ∧ filter (λ c, id c = id r) (countries st') = [r]
  ∧ find (λ c, String.eqb (id c) (id r)) (countries st') = Some r.
Proof.
  intros Hnd Hid Hpays He st'.
  destruct (handleSaveCountry_accepts st r He Hid Hpays) as [Hcs Hok].
  subst st'. rewrite Hcs.
  split; [exact Hok |].
  split; [intros i c Hi Hc; eapply upserted_present; eauto |].
  split; [apply upserted_absent |].
  assert (Hq := query_upserted (countries st) r Hnd).
  split; [exact Hq |].
  revert Hq. generalize (upserted (countries st) r) as l.
  induction l as [|a l IH]; intros Hq; [discriminate |].
  simpl. rewrite filter_cons in Hq.
  destruct (decide (id a = id r)) as [Ha | Ha].
  - injection Hq as -> _. rewrite String.eqb_refl. reflexivity.
  - apply String.eqb_neq in Ha. rewrite Ha. apply IH. exact Hq.
Qed.

Lemma upsert_then_query_witness :
  countries (handleSaveCountry
               (setEditingCountry (Some Sample.SEN_done) Sample.state)).1
  = [Sample.SEN_done; Sample.CIV].
Proof.
  pose proof (upsert_then_query
                (setEditingCountry (Some Sample.SEN_done) Sample.state)
                Sample.SEN_done) as Hspec.
  simpl in Hspec.
  destruct Hspec as (_ & Hreplace & _).
  - apply NoDup_cons. split.
    + intros Hin. apply list_elem_of_singleton in Hin. discriminate Hin.
    + apply NoDup_singleton.
  - discriminate.
  - discriminate.
  - reflexivity.
  - apply (Hreplace 0%nat Sample.SEN); reflexivity.
Defined.

(** C5. A form record whose id or name is empty is refused with the
    "required" alert and the state, hence the table, stays as it was. *)
Theorem upsert_rejects_blank (st : AppState) (r : CountryData) :
  id r = "" ∨ pays r = "" →
  editingCountry st = Some r →
  handleSaveCountry st = (st, Some alert_required).
Proof.
  intros Hblank He. unfold handleSaveCountry. rewrite He.
  destruct Hblank as [Hb | Hb]; apply truthy_false_iff in Hb; rewrite Hb.
  - reflexivity.
  - rewrite orb_true_r. reflexivity.
Qed.

Lemma upsert_rejects_blank_witness :
  handleSaveCountry (setEditingCountry (Some Sample.nameless) Sample.state)
  = (setEditingCountry (Some Sample.nameless) Sample.state,
     Some alert_required).
Proof.
  apply (upsert_rejects_blank
           (setEditingCountry (Some Sample.nameless) Sample.state)
           Sample.nameless).
  - right. reflexivity.
  - reflexivity.
Defined.

(** * Properties of the persistence protocol *)

Section PersistenceFacts.
Context `{Platform}.

(** *** Startup *)

(** Tier 1: a reachable server whose file holds a countries array. *)
Lemma fetchData_adopts_remote (post_up write_ok : bool)
    (ls : gmap string string) (cs : list CountryData)
    (h : option TableHeaders) :
  let w := fetchData true post_up write_ok
             (initial_world ls (Some (mkPayload (Some cs) h))) in
  countries (app w) = cs
  ∧ headers (app w) = default initial_headers h.
Proof. destruct h; split; reflexivity. Qed.

(** The seeding request passes the parser of the server. *)
Lemma fetch_POST_seed (up write_ok : bool) (w : World) :
  fetch_POST up write_ok (mkPayload (Some AFRICA_DATA) (Some initial_headers)) w
  = if up then
      (mkWorld (app w) (localStorage w)
               (post_handler write_ok
                  (mkPayload (Some AFRICA_DATA) (Some initial_headers))
                  (data_file w)).1
               (alerts w) (pending w),
       (post_handler write_ok
          (mkPayload (Some AFRICA_DATA) (Some initial_headers))
          (data_file w)).2)
    else (w, NetworkFailure).
Proof.
  unfold fetch_POST, request_body. simpl. rewrite AFRICA_DATA_fits.
  destruct up; [| reflexivity]. by destruct write_ok.
Qed.

(** Tier 2: a reachable server whose file holds no countries is seeded with
    the defaults, which stay in memory. *)
Lemma fetchData_seeds_remote (ls : gmap string string) :
  let w := fetchData true true true
             (initial_world ls (Some (mkPayload None None))) in
  countries (app w) = AFRICA_DATA
  ∧ headers (app w) = initial_headers
  ∧ data_file w = Some (mkPayload (Some AFRICA_DATA) (Some initial_headers)).
Proof.
  unfold fetchData. simpl. rewrite fetch_POST_seed. repeat split; reflexivity.
Qed.

(** Tier 3, rejected request: the cache is adopted when it is populated and
    the defaults are kept when it is empty. *)
Lemma fetchData_unreachable_cache (post_up write_ok : bool)
    (ls : gmap string string) (file : option Payload)
    (sd sh : string) (cs : list CountryData) (h : TableHeaders) :
  ls !! "geodetic_data" = Some sd → sd ≠ "" → parse_countries sd = Some cs →
  ls !! "table_headers" = Some sh → sh ≠ "" → parse_headers sh = Some h →
  let w := fetchData false post_up write_ok (initial_world ls file) in
  countries (app w) = cs ∧ headers (app w) = h.
Proof.
  intros Hd Hsd Hpd Hh Hsh Hph.
  apply truthy_true_iff in Hsd. apply truthy_true_iff in Hsh.
  unfold fetchData, fetch_GET, fetchData_catch. simpl.
  rewrite Hd, Hsd, Hpd. simpl. rewrite Hh, Hsh, Hph. simpl.
  split; reflexivity.
Qed.

Lemma fetchData_unreachable_defaults (post_up write_ok : bool)
    (ls : gmap string string) (file : option Payload) :
  ls !! "geodetic_data" = None → ls !! "table_headers" = None →
  let w := fetchData false post_up write_ok (initial_world ls file) in
  countries (app w) = AFRICA_DATA ∧ headers (app w) = initial_headers.
Proof.
  intros Hd Hh.
  unfold fetchData, fetch_GET, fetchData_catch. simpl.
  rewrite Hd, Hh. split; reflexivity.
Qed.

(** A read answered with an error status leaves the seed table and the
    default labels in memory whatever the cache holds, and the mirror
    effects then overwrite the cache with them. *)
Lemma startup_error_status (post_up write_ok : bool)
    (ls : gmap string string) :
  let w := startup true post_up write_ok (initial_world ls None) in
  countries (app w) = AFRICA_DATA
  ∧ headers (app w) = initial_headers
  ∧ localStorage w !! "geodetic_data"
      = Some (stringify_countries AFRICA_DATA)
  ∧ localStorage w !! "table_headers"
      = Some (stringify_headers initial_headers).
Proof.
  unfold startup, fetchData, mirror_headers, mirror_countries. simpl.
  repeat split.
  - rewrite lookup_insert_ne by discriminate. apply lookup_insert_eq.
  - apply lookup_insert_eq.
Qed.

(** *** Explicit save *)

Lemma handleSaveAll_resume_cache (p : PendingSave) (w : World) :
  let w' := handleSaveAll_resume p w in
  localStorage w' !! "geodetic_data"
    = Some (stringify_countries (saved_countries p))
  ∧ localStorage w' !! "table_headers"
    = Some (stringify_headers (saved_headers p))
  ∧ app w' = app w
  ∧ pending w' = pending w.
Proof.
  unfold handleSaveAll_resume, handleSaveAll_catch.
  destruct (saved_response p) as [|code body];
    [| destruct (response_ok code)]; simpl;
    (split; [rewrite lookup_insert_ne by discriminate; apply lookup_insert_eq |]);
    (split; [apply lookup_insert_eq | by split]).
Qed.

Lemma handleSaveAll_request_app (up write_ok : bool) (w : World) :
  let w' := handleSaveAll_request up write_ok w in
  app w' = app w
  ∧ localStorage w' = localStorage w
  ∧ alerts w' = alerts w
  ∧ ∃ r, pending w'
         = pending w ++ [mkPending (countries (app w)) (headers (app w)) r]
         ∧ r = (fetch_POST up write_ok
                  (mkPayload (Some (countries (app w)))
                             (Some (headers (app w)))) w).2.
Proof.
  unfold handleSaveAll_request, fetch_POST.
  destruct up;
    [destruct (express_json _); [destruct write_ok |] |];
    simpl; repeat split; eauto.
Qed.

(** C2. A save resumes with the table and the labels it was started with.
    Whatever the response (the request rejected, or any status code), both
    cache slots are left equal to that serialised payload; the user gets
    the success message for a 2xx status and the failure message for a
    rejected request or any other status, and the two messages differ.
    When nothing happens between the click and the response, the payload
    is the current one, and the success message is shown exactly when the
    request reaches the server, its body passes the parser of the server
    and the file is written. *)
Theorem handleSaveAll_outcome (p : PendingSave) (up write_ok : bool)
    (w : World) :
  (let w' := handleSaveAll_resume p w in
   localStorage w' !! "geodetic_data"
     = Some (stringify_countries (saved_countries p))
   ∧ localStorage w' !! "table_headers"
     = Some (stringify_headers (saved_headers p))
   ∧ app w' = app w
   ∧ alerts w' = alerts w ++ [save_alert (saved_response p)])
  ∧ (let w' := handleSaveAll up write_ok w in
     localStorage w' !! "geodetic_data"
       = Some (stringify_countries (countries (app w)))
     ∧ localStorage w' !! "table_headers"
       = Some (stringify_headers (headers (app w)))
     ∧ app w' = app w
     ∧ alerts w'
       = alerts w
         ++ [if up
                && express_json
                     (request_body (mkPayload (Some (countries (app w)))
                                              (Some (headers (app w)))))
                && write_ok
             then alert_saved else alert_save_failed])
  ∧ save_alert NetworkFailure = alert_save_failed
  ∧ (∀ code body, save_alert (Status code body) = alert_saved
                  ↔ (200 <= code <= 299)%Z)
  ∧ alert_saved ≠ alert_save_failed.
Proof.
  split; [| split; [| split; [reflexivity | split; [| discriminate]]]].
  - destruct (handleSaveAll_resume_cache p w) as (Hc & Hh & Ha & _).
    split; [exact Hc |]. split; [exact Hh |]. split; [exact Ha |].
    unfold handleSaveAll_resume, handleSaveAll_catch, save_alert.
    destruct (saved_response p) as [|code body];
      [| destruct (response_ok code)]; reflexivity.
  - unfold handleSaveAll, handleSaveAll_request, handleSaveAll_settle, fetch_POST.
    destruct up;
      [destruct (express_json _); [destruct write_ok |] |]; simpl;
      rewrite lookup_app_r by reflexivity;
      rewrite Nat.sub_diag; simpl;
      (split; [rewrite lookup_insert_ne by discriminate;
               apply lookup_insert_eq |]);
      (split; [apply lookup_insert_eq | by split]).
  - intros code body. unfold save_alert, response_ok.
    destruct (200 <=? code)%Z eqn:H1; destruct (code <=? 299)%Z eqn:H2;
      simpl; split; intros Hx; try discriminate Hx; try reflexivity; lia.
Qed.

(** *** Mirroring *)

Lemma mirror_countries_app (w : World) : app (mirror_countries w) = app w.
Proof. unfold mirror_countries. by destruct (isLoading (app w)). Qed.

Lemma mirror_headers_app (w : World) : app (mirror_headers w) = app w.
Proof. unfold mirror_headers. by destruct (isLoading (app w)). Qed.



Lemma mirror_countries_cached (w : World) :
  isLoading (app w) = false → countries_cached (mirror_countries w).
Proof.
  intros Hl. unfold countries_cached, mirror_countries. rewrite Hl. simpl.
  apply lookup_insert_eq.
Qed.

Lemma mirror_headers_cached (w : World) :
  isLoading (app w) = false → headers_cached (mirror_headers w).
Proof.
  intros Hl. unfold headers_cached, mirror_headers. rewrite Hl. simpl.
  apply lookup_insert_eq.
Qed.


Lemma mirror_headers_keeps_countries (w : World) :
  countries_cached w → countries_cached (mirror_headers w).
Proof.
  unfold countries_cached, mirror_headers.
  destruct (isLoading (app w)); [done |]. simpl. intros Hh.
  by rewrite lookup_insert_ne.
Qed.

Lemma startup_sync (get_up post_up write_ok : bool) (w : World) :
  let w' := startup get_up post_up write_ok w in
  isLoading (app w') = false ∧ cache_in_sync w'.
Proof.
  unfold startup.
  set (w1 := fetchData get_up post_up write_ok w).
  assert (Hl : isLoading (app w1) = false) by reflexivity.
  split; [by rewrite mirror_headers_app, mirror_countries_app |].
  split.
  - apply mirror_headers_keeps_countries. by apply mirror_countries_cached.
  - apply mirror_headers_cached. by rewrite mirror_countries_app.
Qed.



Lemma handleSaveCountry_facts (st : AppState) :
  isLoading (handleSaveCountry st).1 = isLoading st
  ∧ headers (handleSaveCountry st).1 = headers st
  ∧ ((handleSaveCountry st).2 ≠ None → (handleSaveCountry st).1 = st).
Proof.
  unfold handleSaveCountry.
  destruct (editingCountry st) as [ec|]; [| by repeat split].
  destruct (negb (truthy (id ec)) || negb (truthy (pays ec)));
    [by repeat split |].
  simpl. destruct (selectedCountry st) as [sc|]; simpl;
    [destruct (String.eqb (id sc) (id ec)) |]; by repeat split.
Qed.

Lemma saveHeaders_facts (st : AppState) :
  countries (saveHeaders st) = countries st
  ∧ isLoading (saveHeaders st) = isLoading st
  ∧ selectedCountry (saveHeaders st) = selectedCountry st.
Proof.
  unfold saveHeaders. by destruct (editingHeaders_is_headers st).
Qed.

Lemma step_SaveHeaders_app (w : World) :
  app (step SaveHeaders w) = saveHeaders (app w).
Proof.
  unfold step. destruct (editingHeaders_is_headers (app w));
    [reflexivity | by rewrite mirror_headers_app].
Qed.

Lemma handleDeleteCountry_facts (i : string) (st : AppState) :
  isLoading (handleDeleteCountry true i st) = isLoading st
  ∧ headers (handleDeleteCountry true i st) = headers st.
Proof.
  unfold handleDeleteCountry.
  destruct (selectedCountry st) as [sc|]; simpl;
    [destruct (String.eqb (id sc) i) |]; by split.
Qed.






End PersistenceFacts.


(** The headers slot after a stale save is not repaired by a "Save
    Headers" without a keystroke: the slot keeps the old labels while the
    state holds the new ones. *)
Lemma save_headers_same_object_skips_mirror :
  let w :=
    @run Sample.platform
      [SaveAll false false; EditHeaders Sample.labels_fr; SaveHeaders;
       SaveAllSettled 0; OpenHeaderModal; SaveHeaders]
      (@startup Sample.platform false true true
         (@initial_world Sample.platform ∅ None)) in
  headers (app w) = Sample.labels_fr
  ∧ localStorage w !! "table_headers" = Some "Country 🌍"
  ∧ @stringify_headers Sample.platform (headers (app w)) = "Pays".
Proof. repeat split; vm_compute; reflexivity. Qed.


(** C1. The third tier is not reached for every failed read.  With the
    cache holding the table [[COM]] and a server that answers the read with
    status 500, startup keeps the seed table in memory and overwrites the
    cache with it; with the same cache and a request that is rejected, the
    cached table is adopted. *)
Theorem startup_error_status_ignores_cache :
  let ls : gmap string string := {[ "geodetic_data" := "COM" ]} in
  let w0 := @initial_world Sample.platform ls None in
  let w_status := @startup Sample.platform true true true w0 in
  let w_reject := @startup Sample.platform false true true w0 in
  fetch_GET true w0 = Status 500 None
  ∧ response_ok 500 = false
  ∧ @parse_countries Sample.platform "COM" = Some [Sample.COM]
  ∧ countries (app w_status) = [Sample.SEN; Sample.CIV]
  ∧ localStorage w_status !! "geodetic_data" = Some "SEN,CIV"
  ∧ countries (app w_reject) = [Sample.COM].
Proof. repeat split; vm_compute; reflexivity. Qed.

(** * Properties of the join *)

Lemma idMap_values_truthy (k v : string) : idMap !! k = Some v → truthy v = true.
Proof.
  intros Hk.
  assert (Hin : (k, v) ∈ map_to_list idMap) by (by apply elem_of_map_to_list).
  revert Hin. vm_compute map_to_list. intros Hin.
  repeat (apply elem_of_cons in Hin as [Hin | Hin];
          [injection Hin as _ ->; reflexivity |]).
  by apply elem_of_nil in Hin.
Qed.

Lemma includes_spec (l : list string) (s : string) :
  includes l s = true ↔ s ∈ l.
Proof.
  unfold includes. rewrite existsb_exists. split.
  - intros (x & Hx & Heq). apply String.eqb_eq in Heq. subst x.
    by apply list_elem_of_In.
  - intros Hs. exists s. split; [by apply list_elem_of_In |].
    apply String.eqb_refl.
Qed.

Lemma includes_false (l : list string) (s : string) :
  includes l s = false ↔ s ∉ l.
Proof.
  rewrite <- includes_spec. by destruct (includes l s).
Qed.

(** No key of the table is the name of an inherited member. *)
Lemma inherited_not_own (k : string) :
  k ∈ Object_prototype_keys → idMap !! k = None.
Proof.
  intros Hk. unfold Object_prototype_keys in Hk.
  repeat (apply elem_of_cons in Hk as [-> | Hk]; [reflexivity |]).
  by apply elem_of_nil in Hk.
Qed.

Lemma normalize_alias (k v : string) : idMap !! k = Some v → normalize k = v.
Proof.
  intros Hk. unfold normalize, idMap_get. rewrite Hk.
  by rewrite (idMap_values_truthy k v Hk).
Qed.

Lemma normalize_unmapped (k : string) :
  idMap !! k = None → k ∉ Object_prototype_keys → normalize k = k.
Proof.
  intros Hk Hown. apply includes_false in Hown.
  unfold normalize, idMap_get. by rewrite Hk, Hown.
Qed.

Lemma normalize_inherited (k : string) :
  k ∈ Object_prototype_keys → normalize k = IdInherited k.
Proof.
  intros Hk. unfold normalize, idMap_get.
  rewrite (inherited_not_own k Hk).
  apply includes_spec in Hk. by rewrite Hk.
Qed.

(** When the normalised identifier is a string, it is the alias of a key
    or the identifier itself, which then names no inherited member. *)
Lemma normalize_string (k s : string) :
  normalize k = IdString s →
  idMap !! k = Some s
  ∨ (idMap !! k = None ∧ (k ∉ Object_prototype_keys) ∧ s = k).
Proof.
  unfold normalize, idMap_get.
  destruct (idMap !! k) as [v|] eqn:Hk.
  - rewrite (idMap_values_truthy k v Hk). intros [= ->]. by left.
  - destruct (includes Object_prototype_keys k) eqn:Hinc; [discriminate |].
    intros [= ->]. right. by rewrite <- includes_false.
Qed.

Lemma includes_value_spec (l : list string) (v : IdValue) :
  includes_value l v = true ↔ ∃ s, v = IdString s ∧ s ∈ l.
Proof.
  destruct v as [s | name]; simpl.
  - rewrite includes_spec. split.
    + intros Hs. by exists s.
    + by intros (s' & [= <-] & Hs).
  - split; [discriminate | by intros (s & ? & _)].
Qed.

Lemma includes_value_elem (data : list CountryData) (v : IdValue) :
  includes_value (africanIsoCodes data) v = true
  ↔ v ∈ (IdString <$> (id <$> data)).
Proof.
  rewrite includes_value_spec, list_elem_of_fmap. unfold africanIsoCodes.
  split; intros (s & Hv & Hs); by exists s.
Qed.

(** The callback of [map] is defined on every feature that passes the
    filter. *)
Lemma rewrite_id_retained {G : Type} (data : list CountryData)
    (f : Feature G) :
  includes_value (africanIsoCodes data) (normalize (f_id f)) = true →
  ∃ s, normalize (f_id f) = IdString s ∧ s ∈ (id <$> data)
       ∧ rewrite_id f = Some (with_id f s).
Proof.
  intros Hinc. apply includes_value_spec in Hinc as (s & Hs & Hin).
  exists s. unfold rewrite_id. rewrite Hs. by repeat split.
Qed.

(** The features kept for rendering: the topology features whose
    normalised identifier is a string that is the id of some record, each
    with that identifier and with the name and geometry of the feature it
    comes from. *)
Lemma africa_features_elem {G : Type} (data : list CountryData)
    (features : list (Feature G)) (g : Feature G) :
  g ∈ africa_features data features
  ↔ ∃ f, f ∈ features
         ∧ normalize (f_id f) = IdString (f_id g)
         ∧ f_id g ∈ (id <$> data)
         ∧ f_name g = f_name f
         ∧ f_geometry g = f_geometry f.
Proof.
  unfold africa_features. rewrite list_elem_of_omap. split.
  - intros (f & Hf & Hg).
    apply list_elem_of_In, filter_In in Hf as [Hf Hinc].
    apply list_elem_of_In in Hf.
    destruct (rewrite_id_retained data f Hinc) as (s & Hs & Hin & Hre).
    rewrite Hre in Hg. injection Hg as <-. exists f. by repeat split.
  - intros (f & Hf & Hn & Hin & Hname & Hgeo). exists f.
    assert (Hinc : includes_value (africanIsoCodes data) (normalize (f_id f))
                   = true).
    { apply includes_value_spec. by exists (f_id g). }
    split.
    + apply list_elem_of_In, filter_In. split; [by apply list_elem_of_In |].
      exact Hinc.
    + unfold rewrite_id. rewrite Hn. f_equal.
      destruct g as [gi gn gg]. simpl in *. unfold with_id. congruence.
Qed.

(** [map] after [filter] drops nothing. *)
Lemma africa_features_length {G : Type} (data : list CountryData)
    (features : list (Feature G)) :
  length (africa_features data features)
  = length (filter (λ f, normalize (f_id f) ∈ (IdString <$> (id <$> data)))
              features).
Proof.
  unfold africa_features.
  induction features as [|f fs IH]; [reflexivity |].
  simpl. rewrite filter_cons.
  destruct (includes_value (africanIsoCodes data) (normalize (f_id f)))
    eqn:Hinc;
    destruct (decide (normalize (f_id f) ∈ (IdString <$> (id <$> data))))
      as [Hin | Hin].
  - destruct (rewrite_id_retained data f Hinc) as (s & _ & _ & Hre).
    simpl. rewrite Hre. simpl. f_equal. exact IH.
  - apply includes_value_elem in Hinc. contradiction.
  - apply includes_value_elem in Hin. congruence.
  - exact IH.
Qed.


(** C10. Normalisation is not injective: "KM" and "MYT" both become "COM".
    A topology with one feature for each yields two different retained
    features with the identifier "COM", and in general every topology
    feature whose normalised identifier is listed is retained: nothing is
    dropped for sharing an identifier with another feature. *)
Theorem normalize_not_injective :
  normalize "KM" = "COM" ∧ normalize "MYT" = "COM" ∧ "KM" ≠ "MYT"
  ∧ africa_features [Sample.COM; Sample.SEN]
      [Sample.comoros; Sample.france; Sample.mayotte]
    = [mkFeature "COM" "Comoros" tt; mkFeature "COM" "Mayotte" tt]
  ∧ mkFeature "COM" "Comoros" tt ≠ mkFeature "COM" "Mayotte" tt
  ∧ (∀ (G : Type) (data : list CountryData) (features : list (Feature G)),
       length (africa_features data features)
       = length (filter (λ f, normalize (f_id f)
                              ∈ (IdString <$> (id <$> data))) features)).
Proof.
  split; [reflexivity |]. split; [reflexivity |]. split; [discriminate |].
  split; [reflexivity |]. split; [discriminate |].
  intros G data features. apply africa_features_length.
Qed.

(** * Properties of the rendering *)

Lemma island_fill_country_fill (data : list CountryData) (i : string) :
  island_fill data i = country_fill data i.
Proof. reflexivity. Qed.

Lemma country_fill_no_record (data : list CountryData) (i : string) :
  find (λ c, String.eqb (id c) i) data = None → country_fill data i = "#f1f5f9".
Proof. intros Hnone. unfold country_fill. by rewrite Hnone. Qed.

Lemma markers_app (l k : list SvgNode) : markers (l ++ k) = markers l ++ markers k.
Proof. apply omap_app. Qed.

Lemma markers_paths (l : list PathNode) : markers (CountryPath <$> l) = [].
Proof. induction l as [|p l IH]; [reflexivity | exact IH]. Qed.

Lemma markers_labels (l : list TextNode) : markers (CountryLabel <$> l) = [].
Proof. induction l as [|t l IH]; [reflexivity | exact IH]. Qed.

Lemma markers_markers (l : list MarkerNode) : markers (IslandMarker <$> l) = l.
Proof.
  induction l as [|m l IH]; [reflexivity |].
  change (m :: markers (IslandMarker <$> l) = m :: l). by rewrite IH.
Qed.

Lemma paths_app (l k : list SvgNode) : paths (l ++ k) = paths l ++ paths k.
Proof. apply omap_app. Qed.

Lemma paths_paths (l : list PathNode) : paths (CountryPath <$> l) = l.
Proof.
  induction l as [|p l IH]; [reflexivity |].
  change (p :: paths (CountryPath <$> l) = p :: l). by rewrite IH.
Qed.

Lemma paths_labels (l : list TextNode) : paths (CountryLabel <$> l) = [].
Proof. induction l as [|t l IH]; [reflexivity | exact IH]. Qed.

Lemma paths_markers (l : list MarkerNode) : paths (IslandMarker <$> l) = [].
Proof. induction l as [|m l IH]; [reflexivity | exact IH]. Qed.

Lemma Qeq_bool_false (x : Q) : ¬ (x == 0)%Q → Qeq_bool x 0 = false.
Proof.
  intros Hx. destruct (Qeq_bool x 0) eqn:Hb; [| reflexivity].
  apply Qeq_bool_iff in Hb. contradiction.
Qed.

Section RenderFacts.
Context {G : Type} `{D3 G}.

Variables (features : list (Feature G)) (client dimensions : Size).
Variables (selectedCountryId : option string) (data : list CountryData).
Variable svg : list SvgNode.

Let w : Q := num_or (width dimensions) (width client).
Let h : Q := num_or (height dimensions) (height client).
Let projection : Projection :=
  fitExtent ((10, 10), (w - 10, h - 10))%Q features.
Let drawn : list SvgNode :=
  render (Some features) (Some client) dimensions selectedCountryId data svg.

Lemma render_nonzero :
  ¬ (w == 0)%Q → ¬ (h == 0)%Q →
  drawn
  = (CountryPath <$>
       (country_path projection selectedCountryId data <$> features))
    ++ (CountryLabel <$> (country_label projection w data <$> features))
    ++ (IslandMarker <$>
          (island_marker projection w selectedCountryId data
             <$> manualIslands)).
Proof.
  intros Hw Hh. unfold drawn, render. fold w h.
  rewrite (Qeq_bool_false w Hw), (Qeq_bool_false h Hh). reflexivity.
Qed.

Lemma markers_drawn :
  ¬ (w == 0)%Q → ¬ (h == 0)%Q →
  markers drawn
  = island_marker projection w selectedCountryId data <$> manualIslands.
Proof.
  intros Hw Hh. rewrite (render_nonzero Hw Hh).
  by rewrite !markers_app, markers_paths, markers_labels, markers_markers.
Qed.

Lemma paths_drawn :
  ¬ (w == 0)%Q → ¬ (h == 0)%Q →
  paths drawn = country_path projection selectedCountryId data <$> features.
Proof.
  intros Hw Hh. rewrite (render_nonzero Hw Hh).
  rewrite !paths_app, paths_paths, paths_labels, paths_markers.
  by rewrite app_nil_r.
Qed.

(** C7. When the render effect draws (a topology has arrived and the
    viewport is not zero on either axis), then whatever features the
    topology holds, each of the five island identifiers has exactly one
    marker; its centre is the image of the island's literal coordinates
    under the projection that the country paths are drawn with, and its
    fill is the fill a country path gets for that identifier, the default
    colour included when no record has it. *)
Theorem island_markers_drawn :
  ¬ (w == 0)%Q → ¬ (h == 0)%Q →
  paths drawn = country_path projection selectedCountryId data <$> features
  ∧ length (markers drawn) = length islandIds
  ∧ ∀ i, i ∈ islandIds →
      ∃ isl m,
        isl ∈ manualIslands ∧ island_id isl = i
        ∧ filter (λ m, marker_datum m = i) (markers drawn) = [m]
        ∧ (marker_cx m, marker_cy m) = project projection (island_coords isl)
        ∧ marker_fill m = country_fill data i
        ∧ (find (λ c, String.eqb (id c) i) data = None →
           marker_fill m = "#f1f5f9").
Proof.
  intros Hw Hh.
  split; [exact (paths_drawn Hw Hh) |].
  split.
  { by rewrite (markers_drawn Hw Hh). }
  intros i Hi. rewrite (markers_drawn Hw Hh).
  assert (Hcase : ∀ isl, isl ∈ manualIslands → island_id isl = i →
            filter (λ m, marker_datum m = i)
              (island_marker projection w selectedCountryId data
                 <$> manualIslands)
            = [island_marker projection w selectedCountryId data isl] →
            ∃ isl m,
              isl ∈ manualIslands ∧ island_id isl = i
              ∧ filter (λ m, marker_datum m = i)
                  (island_marker projection w selectedCountryId data
                     <$> manualIslands) = [m]
              ∧ (marker_cx m, marker_cy m)
                = project projection (island_coords isl)
              ∧ marker_fill m = country_fill data i
              ∧ (find (λ c, String.eqb (id c) i) data = None →
                 marker_fill m = "#f1f5f9")).
  { intros isl Hisl Hid Hf.
    exists isl, (island_marker projection w selectedCountryId data isl).
    split; [exact Hisl |]. split; [exact Hid |]. split; [exact Hf |].
    simpl. rewrite Hid.
    split; [by destruct (project projection (island_coords isl)) |].
    split; [reflexivity | apply country_fill_no_record]. }
  unfold islandIds in Hi.
  repeat (apply elem_of_cons in Hi as [-> | Hi]).
  - apply (Hcase (mkIsland "CPV" "Cape Verde" (-23.0418, 16.0020)%Q));
      [apply list_elem_of_In; simpl; tauto | reflexivity | reflexivity].
  - apply (Hcase (mkIsland "COM" "Comoros" (43.3333, -11.6450)%Q));
      [apply list_elem_of_In; simpl; tauto | reflexivity | reflexivity].
  - apply (Hcase (mkIsland "MUS" "Mauritius" (57.5522, -20.3484)%Q));
      [apply list_elem_of_In; simpl; tauto | reflexivity | reflexivity].
  - apply (Hcase (mkIsland "SYC" "Seychelles" (55.4920, -4.6796)%Q));
      [apply list_elem_of_In; simpl; tauto | reflexivity | reflexivity].
  - apply (Hcase (mkIsland "STP" "Sao Tome and Principe" (6.7333, 0.1864)%Q));
      [apply list_elem_of_In; simpl; tauto | reflexivity | reflexivity].
  - by apply elem_of_nil in Hi.
Qed.

(** C9. When the viewport size the effect works with is zero on either
    axis, the [svg] is left empty: no path, no label and no marker. *)
Theorem zero_viewport_draws_nothing :
  (w == 0 ∨ h == 0)%Q → drawn = [].
Proof.
  intros Hzero. unfold drawn, render. fold w h.
  destruct Hzero as [Hz | Hz]; apply Qeq_bool_iff in Hz; rewrite Hz.
  - reflexivity.
  - by rewrite orb_true_r.
Qed.

(** The size is the one reported by the resize observer, and the client
    size of the [svg] element on an axis where that one is zero. *)
Lemma viewport_falls_back_to_client :
  ((width dimensions == 0)%Q → w = width client)
  ∧ (¬ (width dimensions == 0)%Q → w = width dimensions).
Proof.
  unfold w, num_or. split; intros Hd.
  - apply Qeq_bool_iff in Hd. by rewrite Hd.
  - by rewrite (Qeq_bool_false _ Hd).
Qed.

(** Conversely the effect draws as soon as both sizes are not zero. *)
Lemma nonzero_viewport_draws :
  ¬ (w == 0)%Q → ¬ (h == 0)%Q → length (markers drawn) = 5%nat.
Proof. intros Hw Hh. by rewrite (markers_drawn Hw Hh). Qed.

End RenderFacts.

Lemma island_markers_drawn_witness :
  ¬ (num_or (width (mkSize 800 600)) (width (mkSize 0 0)) == 0)%Q
  ∧ ¬ (num_or (height (mkSize 800 600)) (height (mkSize 0 0)) == 0)%Q
  ∧ length (markers (@render unit Sample.d3 (Some [Sample.france])
                       (Some (mkSize 0 0)) (mkSize 800 600) None
                       [Sample.COM] []))
    = 5%nat.
Proof.
  assert (Hw : ¬ (num_or (width (mkSize 800 600)) (width (mkSize 0 0)) == 0)%Q)
    by (vm_compute; discriminate).
  assert (Hh : ¬ (num_or (height (mkSize 800 600)) (height (mkSize 0 0)) == 0)%Q)
    by (vm_compute; discriminate).
  split; [exact Hw |]. split; [exact Hh |].
  destruct (@island_markers_drawn unit Sample.d3 [Sample.france]
              (mkSize 0 0) (mkSize 800 600) None [Sample.COM] [] Hw Hh)
    as (_ & Hlen & _).
  exact Hlen.
Defined.

Lemma zero_viewport_draws_nothing_witness :
  (num_or (width (mkSize 0 600)) (width (mkSize 0 300)) == 0
   ∨ num_or (height (mkSize 0 600)) (height (mkSize 0 300)) == 0)%Q
  ∧ @render unit Sample.d3 (Some [Sample.france]) (Some (mkSize 0 300))
      (mkSize 0 600) None [Sample.COM] []
    = [].
Proof.
  assert (Hz : (num_or (width (mkSize 0 600)) (width (mkSize 0 300)) == 0
                ∨ num_or (height (mkSize 0 600)) (height (mkSize 0 300)) == 0)%Q)
    by (left; reflexivity).
  split; [exact Hz |].
  exact (@zero_viewport_draws_nothing unit Sample.d3 [Sample.france]
           (mkSize 0 300) (mkSize 0 600) None [Sample.COM] [] Hz).
Defined.

(** * Properties of the statistics *)

Section Numbers.
Local Open Scope Q_scope.

Lemma Qround_even_bound (y : Q) :
  - (1 # 2) <= inject_Z (Qround_even y) - y <= 1 # 2.
Proof.
  unfold Qround_even.
  pose proof (Qfloor_le y) as Hlo. pose proof (Qlt_floor y) as Hhi.
  rewrite inject_Z_plus in Hhi. change (inject_Z 1) with 1 in Hhi.
  destruct (y - inject_Z (Qfloor y) ?= 1 # 2) eqn:Hc.
  - apply Qeq_alt in Hc.
    destruct (Z.even (Qfloor y));
      [| rewrite inject_Z_plus; change (inject_Z 1) with 1]; lra.
  - apply Qlt_alt in Hc. lra.
  - apply Qgt_alt in Hc. rewrite inject_Z_plus.
    change (inject_Z 1) with 1. lra.
Qed.

Lemma Qlog2_lower (x : Q) : 0 < x -> 2 ^ Qlog2 x <= x.
Proof.
  intros Hx. unfold Qlog2.
  set (a := Qnum x). set (b := Zpos (Qden x)).
  destruct (Qle_bool (2 ^ (Z.log2 a - Z.log2 b)) x) eqn:Hb.
  - by apply Qle_bool_iff.
  - assert (Ha : (0 < a)%Z).
    { unfold a. destruct x as [n d]. unfold Qlt in Hx. simpl in *. lia. }
    assert (Hb0 : (0 < b)%Z) by (unfold b; lia).
    destruct (Z.log2_spec a Ha) as [HaL _].
    destruct (Z.log2_spec b Hb0) as [_ HbU].
    pose proof (Z.log2_nonneg a) as Hla. pose proof (Z.log2_nonneg b) as Hlb.
    replace (Z.log2 a - Z.log2 b - 1)%Z with (Z.log2 a - Z.succ (Z.log2 b))%Z by lia.
    rewrite Qpower_minus by discriminate.
    rewrite <- !(Zpower_Qpower 2) by lia.
    set (A := (2 ^ Z.log2 a)%Z) in *. set (B := (2 ^ Z.succ (Z.log2 b))%Z) in *.
    assert (HA : (0 < A)%Z) by (unfold A; apply Z.pow_pos_nonneg; lia).
    apply Qle_shift_div_r.
    + replace 0 with (inject_Z 0) by reflexivity. rewrite <- Zlt_Qlt. lia.
    + destruct x as [n d]. unfold a, b in *. simpl in *.
      unfold Qle, Qmult, inject_Z. simpl.
      nia.
Qed.

Lemma double_pos_error (x : Q) :
  0 < x -> - (x * ulp53) <= double_pos x - x <= x * ulp53.
Proof.
  intros Hx. unfold double_pos.
  set (e := (Qlog2 x - 52)%Z).
  assert (HP : 0 < 2 ^ e) by (apply Qpower_0_lt; reflexivity).
  assert (Hlog : 2 ^ e * 4503599627370496 <= x).
  { pose proof (Qlog2_lower x Hx) as Hl.
    replace (Qlog2 x) with (e + 52)%Z in Hl by (unfold e; lia).
    rewrite Qpower_plus in Hl by discriminate.
    exact Hl. }
  set (P := 2 ^ e) in *.
  pose proof (Qround_even_bound (x / P)) as [Hlo Hhi].
  set (m := inject_Z (Qround_even (x / P))) in *.
  assert (Hxy : x == (x / P) * P) by (field; lra).
  set (y := x / P) in *.
  assert (H1 : (m - y) * P <= (1 # 2) * P)
    by (apply Qmult_le_compat_r; lra).
  assert (H2 : (- (1 # 2)) * P <= (m - y) * P)
    by (apply Qmult_le_compat_r; lra).
  unfold ulp53. split; lra.
Qed.

Lemma double_error (x : Q) :
  0 <= x -> - (x * ulp53) <= double x - x <= x * ulp53.
Proof.
  intros Hx. unfold double.
  destruct x as [n d]. simpl.
  destruct n as [| p | p].
  - unfold ulp53. split; unfold Qle; simpl; lia.
  - apply double_pos_error. reflexivity.
  - exfalso. unfold Qle in Hx. simpl in Hx. lia.
Qed.

Lemma percentage_nearest_tenth (c T : Z) :
  (0 <= c <= T)%Z -> (0 < T < 2 ^ 32)%Z ->
  let n := toFixed1 (num_mul (num_div (inject_Z c) (inject_Z T)) 100) in
  Qabs (inject_Z n / 10 - inject_Z c / inject_Z T * 100) <= 1 # 20.
Proof.
  intros Hc HT n.
  assert (HTq : 0 < inject_Z T)
    by (replace 0 with (inject_Z 0) by reflexivity; rewrite <- Zlt_Qlt; lia).
  assert (HTu : inject_Z T < 4294967296)
    by (replace 4294967296 with (inject_Z (2 ^ 32)) by reflexivity;
        rewrite <- Zlt_Qlt; lia).
  assert (Hcq : 0 <= inject_Z c)
    by (replace 0 with (inject_Z 0) by reflexivity; rewrite <- Zle_Qle; lia).
  assert (HcT : inject_Z c <= inject_Z T) by (rewrite <- Zle_Qle; lia).
  set (r := inject_Z c / inject_Z T) in *.
  assert (HrT : r * inject_Z T == inject_Z c) by (unfold r; field; lra).
  assert (Hr0 : 0 <= r) by (unfold r; apply Qle_shift_div_l; lra).
  assert (Hr1 : r <= 1) by (unfold r; apply Qle_shift_div_r; lra).
  subst n. unfold num_mul, num_div. fold r.
  pose proof (double_error r Hr0) as [H1lo H1hi].
  set (x1 := double r) in *.
  assert (Hx1 : 0 <= x1 * 100) by (unfold ulp53 in *; lra).
  pose proof (double_error (x1 * 100) Hx1) as [H2lo H2hi].
  set (x2 := double (x1 * 100)) in *.
  unfold toFixed1.
  pose proof (Qfloor_le (x2 * 10 + (1 # 2))) as Hnlo.
  pose proof (Qlt_floor (x2 * 10 + (1 # 2))) as Hnhi.
  rewrite inject_Z_plus in Hnhi. change (inject_Z 1) with 1 in Hnhi.
  set (n := Qfloor (x2 * 10 + (1 # 2))) in *.
  unfold ulp53 in *.
  set (D := inject_Z n - 1000 * r).
  assert (HDhi : D <= (1 # 2) + 3000 * (1 # 9007199254740992)) by (unfold D; lra).
  assert (HDlo : - ((1 # 2) + 3000 * (1 # 9007199254740992)) <= D) by (unfold D; lra).
  assert (HDThi : D * inject_Z T <= ((1 # 2) + 3000 * (1 # 9007199254740992)) * inject_Z T)
    by (apply Qmult_le_compat_r; lra).
  assert (HDTlo : - ((1 # 2) + 3000 * (1 # 9007199254740992)) * inject_Z T <= D * inject_Z T)
    by (apply Qmult_le_compat_r; lra).
  assert (HDT : D * inject_Z T == inject_Z (n * T - 1000 * c)).
  { unfold D. unfold Zminus. rewrite inject_Z_plus, inject_Z_opp, !inject_Z_mult.
    change (inject_Z 1000) with 1000. lra. }
  set (K := (n * T - 1000 * c)%Z) in *.
  assert (HKhi : (2 * K <= T)%Z).
  { assert (Hlt : inject_Z (2 * K) < inject_Z (T + 1)).
    { rewrite inject_Z_mult, inject_Z_plus.
      change (inject_Z 2) with 2. change (inject_Z 1) with 1. lra. }
    rewrite <- Zlt_Qlt in Hlt. lia. }
  assert (HKlo : (- T <= 2 * K)%Z).
  { assert (Hlt : inject_Z (- T - 1) < inject_Z (2 * K)).
    { unfold Zminus. rewrite inject_Z_mult, inject_Z_plus, !inject_Z_opp.
      change (inject_Z 2) with 2. change (inject_Z 1) with 1. lra. }
    rewrite <- Zlt_Qlt in Hlt. lia. }
  assert (HKhiq : 2 * (D * inject_Z T) <= inject_Z T).
  { rewrite HDT. change 2 with (inject_Z 2). rewrite <- inject_Z_mult.
    rewrite <- Zle_Qle. exact HKhi. }
  assert (HKloq : - inject_Z T <= 2 * (D * inject_Z T)).
  { rewrite HDT. change 2 with (inject_Z 2).
    rewrite <- inject_Z_mult, <- inject_Z_opp.
    rewrite <- Zle_Qle. exact HKlo. }
  assert (HD1 : D <= 1 # 2).
  { apply (Qmult_le_r _ _ (inject_Z T) HTq). lra. }
  assert (HD2 : - (1 # 2) <= D).
  { apply (Qmult_le_r _ _ (inject_Z T) HTq). lra. }
  apply Qabs_Qle_condition. unfold D in HD1, HD2. unfold Qdiv at 1 2. change (/ 10) with (1 # 10). split; lra.
Qed.

End Numbers.

Lemma List_filter_status (data : list CountryData) (s : string) :
  List.filter (λ c, String.eqb (status c) s) data
  = filter (λ c, status c = s) data.
Proof.
  induction data as [|c data IH]; [reflexivity |].
  simpl. rewrite filter_cons, IH.
  destruct (String.eqb_spec (status c) s) as [Heq | Hne];
    destruct (decide (status c = s)); try reflexivity; contradiction.
Qed.

(** C8. The overlay has one row for each of COMPLET, SANS_EPOQUE,
    MANQUE_INFO and CANEVA_LOCAL and none for ACTIF.  The count of a row is
    the number of records with its status.  On the empty table every count
    is 0 and every percentage is the number 0; otherwise the percentage is
    a one-decimal string whose value is within one twentieth of
    count / total * 100, that is, that quotient rounded to one decimal
    (total is below 2^32, the bound on the length of an array). *)
Theorem statistics_spec (data : list CountryData) :
  (Z.of_nat (length data) < 2 ^ 32)%Z →
  item_status <$> (row_item <$> statistics data)
    = ["COMPLET"; "SANS_EPOQUE"; "MANQUE_INFO"; "CANEVA_LOCAL"]
  ∧ ("ACTIF" ∉ item_status <$> (row_item <$> statistics data))
  ∧ ∀ row, row ∈ statistics data →
      row_count row
        = length (filter (λ c, status c = item_status (row_item row)) data)
      ∧ match data with
        | [] => row_count row = 0%nat ∧ row_percentage row = PctNumber 0
        | _ :: _ =>
          ∃ n, row_percentage row = PctFixed1 n
               ∧ (Qabs (inject_Z n / 10
                        - inject_Z (Z.of_nat (row_count row))
                          / inject_Z (Z.of_nat (length data)) * 100)
                  <= 1 # 20)%Q
        end.
Proof.
  intros Hlen.
  split; [reflexivity |].
  split.
  { simpl. intros Hin.
    repeat (apply elem_of_cons in Hin as [Hin | Hin]; [discriminate Hin |]).
    by apply elem_of_nil in Hin. }
  intros row Hrow. unfold statistics in Hrow.
  apply list_elem_of_fmap in Hrow as (item & -> & _).
  unfold stat_row. simpl. rewrite List_filter_status.
  split; [reflexivity |].
  destruct data as [|c0 data']; [by split |].
  set (data := c0 :: data') in *.
  change (0 <? length data)%nat with true. cbv iota.
  eexists. split; [reflexivity |].
  assert (Hpos : (0 < Z.of_nat (length data))%Z) by (unfold data; simpl; lia).
  apply percentage_nearest_tenth; [| split; [exact Hpos | exact Hlen]].
  split; [lia |]. apply inj_le. apply length_filter.
Qed.

Lemma statistics_spec_witness :
  (Z.of_nat (length [Sample.SEN_done; Sample.CIV; Sample.COM]) < 2 ^ 32)%Z
  ∧ ∀ row, row ∈ statistics [Sample.SEN_done; Sample.CIV; Sample.COM] →
      ∃ n, row_percentage row = PctFixed1 n
           ∧ (Qabs (inject_Z n / 10
                    - inject_Z (Z.of_nat (row_count row)) / inject_Z 3 * 100)
              <= 1 # 20)%Q.
Proof.
  split; [reflexivity |].
  intros row Hrow.
  destruct (statistics_spec [Sample.SEN_done; Sample.CIV; Sample.COM])
    as (_ & _ & Hrows); [reflexivity |].
  destruct (Hrows row Hrow) as [_ Hpct]. exact Hpct.
Defined.

(** * More on the table operations *)

Lemma find_app {A : Type} (p : A → bool) (l k : list A) :
  find p (l ++ k) = match find p l with Some x => Some x | None => find p k end.
Proof.
  induction l as [|a l IH]; [reflexivity |].
  simpl. destruct (p a); [reflexivity | exact IH].
Qed.

Lemma find_none {A : Type} (p : A → bool) (l : list A) :
  find p l = None ↔ Forall (λ x, p x = false) l.
Proof.
  induction l as [|a l IH]; simpl.
  - split; [constructor | reflexivity].
  - destruct (p a) eqn:Hpa; split; intros Hx.
    + discriminate.
    + apply Forall_cons in Hx as [Hx _]. congruence.
    + apply Forall_cons. split; [exact Hpa | by apply IH].
    + apply Forall_cons in Hx as [_ Hx]. by apply IH.
Qed.

Lemma find_some {A : Type} (p : A → bool) (l : list A) (x : A) :
  find p l = Some x → x ∈ l ∧ p x = true.
Proof.
  induction l as [|a l IH]; simpl; [discriminate |].
  destruct (p a) eqn:Hpa.
  - intros [= ->]. split; [left | exact Hpa].
  - intros Hx. destruct (IH Hx) as [Hin Hp]. split; [by right | exact Hp].
Qed.

Lemma find_id_some (cs : list CountryData) (i : string) :
  i ∈ (id <$> cs) →
  ∃ c, find (λ c, String.eqb (id c) i) cs = Some c ∧ c ∈ cs ∧ id c = i.
Proof.
  intros Hi. destruct (find (λ c, String.eqb (id c) i) cs) as [c|] eqn:Hf.
  - exists c. destruct (find_some _ _ _ Hf) as [Hin Hp].
    apply String.eqb_eq in Hp. by repeat split.
  - exfalso. apply find_none in Hf. rewrite Forall_forall in Hf.
    apply list_elem_of_fmap in Hi as (c & -> & Hc).
    specialize (Hf c Hc). simpl in Hf. by rewrite String.eqb_refl in Hf.
Qed.

(** A list either has no element satisfying [p], or splits at the first
    one. *)
Lemma first_match_split {A : Type} (p : A → bool) (l : list A) :
  Forall (λ x, p x = false) l
  ∨ ∃ l1 c l2, l = l1 ++ c :: l2 ∧ Forall (λ x, p x = false) l1 ∧ p c = true.
Proof.
  induction l as [|a l IH].
  - left. constructor.
  - destruct (p a) eqn:Hpa.
    + right. exists [], a, l. repeat split; [constructor | exact Hpa].
    + destruct IH as [Hall | (l1 & c & l2 & -> & Hl1 & Hc)].
      * left. by constructor.
      * right. exists (a :: l1), c, l2.
        repeat split; [by constructor | exact Hc].
Qed.

Lemma findIndex_from_skip {A : Type} (p : A → bool) (l1 l : list A) (i : Z) :
  Forall (λ x, p x = false) l1 →
  findIndex_from p (l1 ++ l) i = findIndex_from p l (i + Z.of_nat (length l1)).
Proof.
  revert i. induction l1 as [|a l1 IH]; intros i Hall; simpl.
  - f_equal. lia.
  - apply Forall_cons in Hall as [Ha Hall]. rewrite Ha, (IH _ Hall).
    f_equal. lia.
Qed.

Lemma upserted_first (l1 l2 : list CountryData) (c r : CountryData) :
  Forall (λ x, String.eqb (id x) (id r) = false) l1 → id c = id r →
  upserted (l1 ++ c :: l2) r = l1 ++ r :: l2.
Proof.
  intros Hl1 Hc. unfold upserted, findIndex.
  rewrite (findIndex_from_skip _ l1 (c :: l2) 0 Hl1). simpl.
  rewrite Hc, String.eqb_refl.
  replace (0 + Z.of_nat (length l1) >? -1) with true
    by (symmetry; apply Z.gtb_lt; lia).
  replace (Z.to_nat (0 + Z.of_nat (length l1))) with (length l1 + 0)%nat by lia.
  by rewrite insert_app_r.
Qed.

Lemma upserted_none (cs : list CountryData) (r : CountryData) :
  Forall (λ x, String.eqb (id x) (id r) = false) cs →
  upserted cs r = cs ++ [r].
Proof.
  intros Hall. apply upserted_absent. intros c Hc.
  rewrite Forall_forall in Hall. apply String.eqb_neq. by apply Hall.
Qed.

(** [upserted] writes [r] over the first record with its id, or after the
    last record when there is none. *)
Lemma upserted_cases (cs : list CountryData) (r : CountryData) :
  (Forall (λ x, String.eqb (id x) (id r) = false) cs
   ∧ upserted cs r = cs ++ [r])
  ∨ (∃ l1 c l2,
       cs = l1 ++ c :: l2
       ∧ Forall (λ x, String.eqb (id x) (id r) = false) l1
       ∧ id c = id r
       ∧ upserted cs r = l1 ++ r :: l2).
Proof.
  destruct (first_match_split (λ x, String.eqb (id x) (id r)) cs)
    as [Hall | (l1 & c & l2 & -> & Hl1 & Hc)].
  - left. split; [exact Hall | by apply upserted_none].
  - right. apply String.eqb_eq in Hc. exists l1, c, l2.
    repeat split; try assumption. by apply upserted_first.
Qed.

(** What an accepted "Save" of the country form does to the state. *)
Lemma handleSaveCountry_cases (st : AppState) :
  handleSaveCountry st = (st, Some alert_required)
  ∨ ∃ r, editingCountry st = Some r ∧ id r ≠ "" ∧ pays r ≠ ""
         ∧ (handleSaveCountry st).2 = None
         ∧ countries (handleSaveCountry st).1 = upserted (countries st) r
         ∧ selectedCountry (handleSaveCountry st).1
           = match selectedCountry st with
             | Some sc => if String.eqb (id sc) (id r) then Some r else Some sc
             | None => None
             end.
Proof.
  unfold handleSaveCountry.
  destruct (editingCountry st) as [r|]; [| by left].
  destruct (truthy (id r)) eqn:Hid; [| by left].
  destruct (truthy (pays r)) eqn:Hpays; [| by left].
  right. exists r. apply truthy_true_iff in Hid. apply truthy_true_iff in Hpays.
  simpl. split; [reflexivity |]. split; [exact Hid |]. split; [exact Hpays |].
  destruct (selectedCountry st) as [sc|] eqn:Hsel; simpl;
    [destruct (String.eqb (id sc) (id r)) |]; simpl; rewrite ?Hsel;
    (split; [reflexivity | split; reflexivity]).
Qed.

(** What a confirmed delete does to the state. *)
Lemma handleDeleteCountry_eq (i : string) (st : AppState) :
  handleDeleteCountry true i st
  = mkApp (List.filter (λ c, negb (String.eqb (id c) i)) (countries st))
          (headers st) (isLoading st)
          match selectedCountry st with
          | Some sc => if String.eqb (id sc) i then None else Some sc
          | None => None
          end
          (isEditModalOpen st) (isHeaderModalOpen st) (editingCountry st)
          (editingHeaders st) (editingHeaders_is_headers st).
Proof.
  unfold handleDeleteCountry, setSelectedCountry, setCountries.
  destruct (selectedCountry st) as [sc|] eqn:Hsel; simpl;
    [destruct (String.eqb (id sc) i) |]; simpl; rewrite ?Hsel; reflexivity.
Qed.

(** X1. A confirmed delete keeps exactly the records whose id is not the
    deleted one, in their order; afterwards no record and no selection
    has that id. *)
Theorem delete_removes_every_match (i : string) (st : AppState) :
  let st' := handleDeleteCountry true i st in
  (∀ c, c ∈ countries st' ↔ c ∈ countries st ∧ id c ≠ i)
  ∧ countries st' `sublist_of` countries st
  ∧ find (λ c, String.eqb (id c) i) (countries st') = None
  ∧ (∀ sc, selectedCountry st' = Some sc →
           selectedCountry st = Some sc ∧ id sc ≠ i).
Proof.
  assert (Hcs : countries (handleDeleteCountry true i st)
                = List.filter (λ c, negb (String.eqb (id c) i)) (countries st)).
  { unfold handleDeleteCountry.
    destruct (selectedCountry st) as [sc|];
      [destruct (String.eqb (id sc) i) |]; reflexivity. }
  cbv zeta. rewrite Hcs. split; [| split; [| split]].
  - intros c. rewrite !list_elem_of_In, filter_In, negb_true_iff.
    by rewrite String.eqb_neq.
  - generalize (countries st) as l. induction l as [|a l IH]; simpl.
    + constructor.
    + destruct (negb (String.eqb (id a) i)); by constructor.
  - apply find_none, Forall_forall. intros c Hc.
    apply list_elem_of_In, filter_In in Hc as [_ Hc].
    by apply negb_true_iff in Hc.
  - intros sc. unfold handleDeleteCountry.
    destruct (selectedCountry st) as [sc0|] eqn:Hsel; simpl.
    + destruct (String.eqb_spec (id sc0) i) as [Heq | Hne]; simpl;
        rewrite ?Hsel; [discriminate |].
      intros [= ->]. by split.
    + rewrite Hsel. discriminate.
Qed.

(** X2. Deleting the same id a second time changes nothing, and neither
    does a delete that the user does not confirm. *)
Theorem delete_idempotent (i : string) (st : AppState) :
  handleDeleteCountry true i (handleDeleteCountry true i st)
  = handleDeleteCountry true i st
  ∧ handleDeleteCountry false i st = st.
Proof.
  split; [| reflexivity].
  assert (Hff : ∀ l : list CountryData,
            List.filter (λ c, negb (String.eqb (id c) i))
              (List.filter (λ c, negb (String.eqb (id c) i)) l)
            = List.filter (λ c, negb (String.eqb (id c) i)) l).
  { induction l as [|a l IH]; [reflexivity |].
    simpl. destruct (negb (String.eqb (id a) i)) eqn:Ha; simpl.
    - by rewrite Ha, IH.
    - exact IH. }
  rewrite (handleDeleteCountry_eq i (handleDeleteCountry true i st)).
  rewrite (handleDeleteCountry_eq i st). simpl. rewrite Hff.
  f_equal.
  destruct (selectedCountry st) as [sc|]; [| reflexivity].
  destruct (String.eqb (id sc) i) eqn:Hsc; [reflexivity |]. by rewrite Hsc.
Qed.

(** X3. Deleting an id that no record has leaves the table as it is. *)
Theorem delete_absent_keeps_table (i : string) (st : AppState) :
  (∀ c, c ∈ countries st → id c ≠ i) →
  countries (handleDeleteCountry true i st) = countries st.
Proof.
  intros Habs.
  assert (Hcs : countries (handleDeleteCountry true i st)
                = List.filter (λ c, negb (String.eqb (id c) i)) (countries st)).
  { unfold handleDeleteCountry.
    destruct (selectedCountry st) as [sc|];
      [destruct (String.eqb (id sc) i) |]; reflexivity. }
  rewrite Hcs. revert Habs. generalize (countries st) as l.
  induction l as [|a l IH]; intros Habs; [reflexivity |].
  simpl. assert (Ha : id a ≠ i) by (apply Habs; left).
  apply String.eqb_neq in Ha. rewrite Ha. simpl. f_equal.
  apply IH. intros c Hc. apply Habs. by right.
Qed.

Lemma delete_absent_keeps_table_witness :
  countries (handleDeleteCountry true "TGO" Sample.state)
  = [Sample.SEN; Sample.CIV].
Proof.
  apply (delete_absent_keeps_table "TGO" Sample.state).
  intros c Hc. simpl in Hc.
  apply elem_of_cons in Hc as [-> | Hc]; [discriminate |].
  apply list_elem_of_singleton in Hc as ->. discriminate.
Defined.

(** X4. An accepted save of the form record [r] leaves every other id as
    it was: the first record found for an id other than the id of [r] is
    the same before and after, and the table keeps its length when [r]
    replaces a record and grows by one when it is appended. *)
Theorem upsert_keeps_other_records (st : AppState) (r : CountryData) :
  editingCountry st = Some r → id r ≠ "" → pays r ≠ "" →
  let cs' := countries (handleSaveCountry st).1 in
  (∀ j, j ≠ id r →
        find (λ c, String.eqb (id c) j) cs'
        = find (λ c, String.eqb (id c) j) (countries st))
  ∧ length cs'
    = if includes (africanIsoCodes (countries st)) (id r)
      then length (countries st) else S (length (countries st)).
Proof.
  intros He Hid Hpays cs'.
  destruct (handleSaveCountry_accepts st r He Hid Hpays) as [Hcs _].
  subst cs'. rewrite Hcs. clear Hcs.
  destruct (upserted_cases (countries st) r)
    as [[Hall ->] | (l1 & c & l2 & Hsplit & Hl1 & Hc & ->)].
  - split.
    + intros j Hj. rewrite find_app. simpl.
      apply not_eq_sym, String.eqb_neq in Hj. rewrite Hj.
      by destruct (find _ (countries st)).
    + replace (includes (africanIsoCodes (countries st)) (id r)) with false.
      * rewrite length_app. simpl. lia.
      * symmetry. apply not_true_is_false. intros Hinc.
        apply includes_spec in Hinc.
        apply list_elem_of_fmap in Hinc as (c & Hc & Hin).
        rewrite Forall_forall in Hall. specialize (Hall c Hin). simpl in Hall.
        apply String.eqb_neq in Hall. congruence.
  - rewrite Hsplit. split.
    + intros j Hj. rewrite !find_app. simpl.
      apply not_eq_sym, String.eqb_neq in Hj. rewrite Hc, Hj. reflexivity.
    + replace (includes (africanIsoCodes (l1 ++ c :: l2)) (id r)) with true.
      * rewrite !length_app. reflexivity.
      * symmetry. apply includes_spec. unfold africanIsoCodes.
        rewrite fmap_app. apply elem_of_app. right. simpl. rewrite Hc. left.
Qed.

Lemma upsert_keeps_other_records_witness :
  find (λ c, String.eqb (id c) "CIV")
       (countries (handleSaveCountry
                     (setEditingCountry (Some Sample.SEN_done) Sample.state)).1)
  = Some Sample.CIV.
Proof.
  destruct (upsert_keeps_other_records
              (setEditingCountry (Some Sample.SEN_done) Sample.state)
              Sample.SEN_done) as [Hfind _];
    [reflexivity | discriminate | discriminate |].
  rewrite (Hfind "CIV"); [reflexivity | discriminate].
Defined.

(** X5. Saving a record and then deleting its id gives the table that
    deleting the id alone gives. *)
Theorem upsert_then_delete (st : AppState) (r : CountryData) :
  editingCountry st = Some r → id r ≠ "" → pays r ≠ "" →
  countries (handleDeleteCountry true (id r) (handleSaveCountry st).1)
  = countries (handleDeleteCountry true (id r) st).
Proof.
  intros He Hid Hpays.
  destruct (handleSaveCountry_accepts st r He Hid Hpays) as [Hcs _].
  rewrite !handleDeleteCountry_eq. simpl. rewrite Hcs. clear Hcs.
  destruct (upserted_cases (countries st) r)
    as [[Hall ->] | (l1 & c & l2 & Hsplit & Hl1 & Hc & ->)].
  - rewrite List.filter_app. simpl. rewrite String.eqb_refl. simpl.
    by rewrite app_nil_r.
  - rewrite Hsplit, !List.filter_app. simpl.
    by rewrite Hc, String.eqb_refl.
Qed.

Lemma upsert_then_delete_witness :
  countries (handleDeleteCountry true "SEN"
               (handleSaveCountry
                  (setEditingCountry (Some Sample.SEN_done) Sample.state)).1)
  = [Sample.CIV].
Proof.
  transitivity
    (countries (handleDeleteCountry true (id Sample.SEN_done)
                  (setEditingCountry (Some Sample.SEN_done) Sample.state)));
    [| reflexivity].
  apply (upsert_then_delete
           (setEditingCountry (Some Sample.SEN_done) Sample.state)
           Sample.SEN_done);
    [reflexivity | discriminate | discriminate].
Defined.

Lemma upserted_idempotent (cs : list CountryData) (r : CountryData) :
  upserted (upserted cs r) r = upserted cs r.
Proof.
  destruct (upserted_cases cs r)
    as [[Hall ->] | (l1 & c & l2 & _ & Hl1 & _ & ->)];
    by apply upserted_first.
Qed.

(** X6. Saving the same form record a second time changes nothing in the
    table, whether the first save replaced a record or appended one, and
    whether or not the ids of the table are unique. *)
Theorem upsert_idempotent (st : AppState) (r : CountryData) :
  editingCountry st = Some r → id r ≠ "" → pays r ≠ "" →
  let st1 := (handleSaveCountry st).1 in
  countries (handleSaveCountry (setEditingCountry (Some r) st1)).1
  = countries st1.
Proof.
  intros He Hid Hpays st1.
  destruct (handleSaveCountry_accepts st r He Hid Hpays) as [Hcs _].
  destruct (handleSaveCountry_accepts (setEditingCountry (Some r) st1) r
              eq_refl Hid Hpays) as [Hcs' _].
  rewrite Hcs'. unfold st1. simpl. rewrite Hcs. apply upserted_idempotent.
Qed.

Lemma upsert_idempotent_witness :
  let st1 :=
    (handleSaveCountry (setEditingCountry (Some Sample.COM) Sample.state)).1 in
  countries (handleSaveCountry (setEditingCountry (Some Sample.COM) st1)).1
  = [Sample.SEN; Sample.CIV; Sample.COM].
Proof.
  intros st1.
  transitivity (countries st1); [| reflexivity].
  apply (upsert_idempotent
           (setEditingCountry (Some Sample.COM) Sample.state) Sample.COM);
    [reflexivity | discriminate | discriminate].
Defined.

(** [upserted] keeps the ids unique, and keeps ids and names non-empty
    when those of [r] are. *)
Lemma upserted_valid (cs : list CountryData) (r : CountryData) :
  id r ≠ "" → pays r ≠ "" → table_valid cs → table_valid (upserted cs r).
Proof.
  intros Hid Hpays [Hnd Hall].
  destruct (upserted_cases cs r)
    as [[Habs ->] | (l1 & c & l2 & -> & Hl1 & Hc & ->)].
  - split.
    + rewrite fmap_app. apply NoDup_app. split; [exact Hnd |]. split.
      * intros i Hi Hi'. apply list_elem_of_singleton in Hi'. subst i.
        apply list_elem_of_fmap in Hi as (c & Hc & Hin).
        rewrite Forall_forall in Habs. specialize (Habs c Hin). simpl in Habs.
        apply String.eqb_neq in Habs. congruence.
      * apply NoDup_singleton.
    + apply Forall_app. split; [exact Hall |]. by repeat constructor.
  - split.
    + rewrite fmap_app in Hnd |- *. simpl in *. by rewrite <- Hc.
    + apply Forall_app in Hall as [H1 H2]. apply Forall_cons in H2 as [_ H2].
      apply Forall_app. split; [exact H1 |]. by constructor.
Qed.

Lemma deleted_valid (cs : list CountryData) (i : string) :
  table_valid cs →
  table_valid (List.filter (λ c, negb (String.eqb (id c) i)) cs).
Proof.
  intros [Hnd Hall].
  assert (Hsub : List.filter (λ c, negb (String.eqb (id c) i)) cs
                 `sublist_of` cs).
  { clear. induction cs as [|a l IH]; simpl; [constructor |].
    destruct (negb (String.eqb (id a) i)); by constructor. }
  split.
  - apply (sublist_NoDup _ (id <$> cs)); [exact Hnd | by apply fmap_sublist].
  - rewrite Forall_forall in Hall |- *. intros c Hc. apply Hall.
    by eapply elem_of_sublist.
Qed.

Section TableInvariants.
Context `{Platform}.

(** The table after an event: unchanged, upserted with an accepted
    record, or filtered by a delete. *)
Lemma step_table (ev : Event) (w : World) :
  countries (app (step ev w)) = countries (app w)
  ∨ (∃ r, id r ≠ "" ∧ pays r ≠ ""
          ∧ ev = SaveCountry ∧ editingCountry (app w) = Some r
          ∧ countries (app (step ev w)) = upserted (countries (app w)) r)
  ∨ (∃ i, ev = DeleteCountry i true
          ∧ countries (app (step ev w))
            = List.filter (λ c, negb (String.eqb (id c) i))
                (countries (app w))).
Proof.
  destruct ev as [c | ec | | i confirmed | h | | up write_ok | k | c |];
    try (by left).
  - unfold step.
    destruct (handleSaveCountry_cases (app w))
      as [Hrej | (r & He & Hid & Hpays & Hok & Hcs & _)].
    + rewrite Hrej. by left.
    + right. left. exists r.
      destruct (handleSaveCountry (app w)) as [st [msg|]];
        simpl in Hok, Hcs; [discriminate |].
      rewrite mirror_countries_app. by repeat split.
  - destruct confirmed; [| by left].
    right. right. exists i. split; [reflexivity |].
    unfold step. rewrite mirror_countries_app.
    change (app (set_app (handleDeleteCountry true i (app w)) w))
      with (handleDeleteCountry true i (app w)).
    by rewrite handleDeleteCountry_eq.
  - left. rewrite step_SaveHeaders_app. apply saveHeaders_facts.
  - left. unfold step.
    by destruct (handleSaveAll_request_app up write_ok w) as (-> & _).
  - left. unfold step, handleSaveAll_settle.
    destruct (pending w !! k) as [p|]; [| reflexivity].
    by destruct (handleSaveAll_resume_cache p
                   (set_pending (delete k (pending w)) w)) as (_ & _ & -> & _).
Qed.

(** X7. Whatever the user does, a table whose ids are unique and whose
    ids and names are not empty stays such a table. *)
Theorem table_stays_valid (evs : list Event) (w : World) :
  table_valid (countries (app w)) →
  table_valid (countries (app (run evs w))).
Proof.
  revert w. induction evs as [|ev evs IH]; intros w Hv; [exact Hv |].
  simpl. apply IH.
  destruct (step_table ev w)
    as [-> | [(r & Hid & Hpays & _ & _ & ->) | (i & _ & ->)]].
  - exact Hv.
  - by apply upserted_valid.
  - by apply deleted_valid.
Qed.

End TableInvariants.

Lemma table_stays_valid_witness :
  table_valid
    (countries
       (app (@run Sample.platform
               [EditCountry Sample.nameless; SaveCountry;
                EditCountry Sample.COM; SaveCountry;
                DeleteCountry "CIV" true]
               (@initial_world Sample.platform ∅ None)))).
Proof.
  apply (@table_stays_valid Sample.platform).
  split.
  - apply NoDup_cons. split.
    + intros Hin. apply list_elem_of_singleton in Hin. discriminate Hin.
    + apply NoDup_singleton.
  - repeat constructor; discriminate.
Defined.



(** The sources of a selection are records of the table. *)
Lemma click_target_in_table (data : list CountryData) (i : string)
    (c : CountryData) :
  click_target data i = Some c → c ∈ data ∧ id c = i.
Proof.
  intros Hc. apply find_some in Hc as [Hin Hp].
  by apply String.eqb_eq in Hp.
Qed.

Lemma filteredData_in_table (q : string) (cs : list CountryData)
    (c : CountryData) :
  c ∈ filteredData q cs ↔ c ∈ cs ∧ matches_query q c = true.
Proof. unfold filteredData. rewrite !list_elem_of_In. apply filter_In. Qed.

Section SelectionInvariant.
Context `{Platform}.


Lemma fetchData_catch_selected (w : World) :
  selectedCountry (app (fetchData_catch w)) = selectedCountry (app w).
Proof.
  unfold fetchData_catch.
  destruct (localStorage w !! "geodetic_data") as [sd|];
    [destruct (truthy sd); [destruct (parse_countries sd) |] |];
    simpl; try reflexivity;
    (destruct (localStorage w !! "table_headers") as [sh|];
     [destruct (truthy sh); [destruct (parse_headers sh) |] |]);
    reflexivity.
Qed.

Lemma startup_selected (get_up post_up write_ok : bool)
    (ls : gmap string string) (file : option Payload) :
  selectedCountry
    (app (startup get_up post_up write_ok (initial_world ls file))) = None.
Proof.
  unfold startup. rewrite mirror_headers_app, mirror_countries_app.
  unfold fetchData, fetch_GET, get_handler, adopt_headers. simpl.
  destruct get_up; [| apply fetchData_catch_selected].
  destruct file as [[[cs|] [h|]]|]; simpl; try reflexivity;
    rewrite fetch_POST_seed;
    destruct post_up; [destruct write_ok | | destruct write_ok |];
    simpl; try reflexivity; apply fetchData_catch_selected.
Qed.

(** The request of [fetchData] is not an event of [step]: the page takes
    clicks while it is pending, and a record of the seed table selected
    then is no record of the remote table adopted afterwards. *)
Lemma selection_lost_when_fetch_settles :
  let remote := Some (mkPayload (Some [Sample.COM]) None) in
  let clicked :=
    @step Sample.platform (SelectCountry (Some Sample.SEN))
      (@initial_world Sample.platform ∅ remote) in
  let w := @startup Sample.platform true true true clicked in
  Sample.SEN ∈ countries (app clicked)
  ∧ selectedCountry (app w) = Some Sample.SEN
  ∧ countries (app w) = [Sample.COM]
  ∧ ¬ selected_in_table (app w).
Proof.
  split; [by left |]. split; [reflexivity |]. split; [reflexivity |].
  intros Hsel. specialize (Hsel Sample.SEN eq_refl).
  apply list_elem_of_singleton in Hsel. discriminate Hsel.
Qed.


End SelectionInvariant.


(** X9. Opening the form on a record of the table and saving it unchanged
    leaves the table as it was, when the ids of the table are unique. *)
Theorem save_unchanged_record (st : AppState) (c : CountryData) :
  NoDup (id <$> countries st) → c ∈ countries st →
  countries (handleSaveCountry (openEditModal (Some c) st)).1 = countries st.
Proof.
  intros Hnd Hc.
  destruct (handleSaveCountry_cases (openEditModal (Some c) st))
    as [Hrej | (r & He & Hid & Hpays & _ & Hcs & _)].
  - by rewrite Hrej.
  - simpl in He. injection He as <-. rewrite Hcs. simpl.
    apply list_elem_of_lookup in Hc as [i Hi].
    rewrite (upserted_present (countries st) c c i Hnd Hi eq_refl).
    by apply list_insert_id.
Qed.

Lemma save_unchanged_record_witness :
  countries (handleSaveCountry (openEditModal (Some Sample.CIV) Sample.state)).1
  = [Sample.SEN; Sample.CIV].
Proof.
  apply (save_unchanged_record Sample.state Sample.CIV).
  - apply NoDup_cons. split.
    + intros Hin. apply list_elem_of_singleton in Hin. discriminate Hin.
    + apply NoDup_singleton.
  - right. left.
Defined.

Lemma id_input_disabled_spec (cs : list CountryData) (ec : CountryData) :
  id_input_disabled cs ec = true ↔ id ec ∈ (id <$> cs).
Proof.
  unfold id_input_disabled, findIndex.
  destruct (findIndex_from_cases (λ c, String.eqb (id c) (id ec)) cs 0)
    as [[Hn Hall] | (k & x & Hk & Hx & Hpx & _)].
  - apply find_none in Hall as Hf. rewrite Hf, Hn. simpl.
    split; [discriminate |]. intros Hin.
    apply list_elem_of_fmap in Hin as (c & Hc & Hin).
    rewrite Forall_forall in Hall. specialize (Hall c Hin). simpl in Hall.
    apply String.eqb_neq in Hall. congruence.
  - destruct (find (λ c, String.eqb (id c) (id ec)) cs) as [y|] eqn:Hf.
    + rewrite Hk. replace (0 + Z.of_nat k =? -1) with false
        by (symmetry; apply Z.eqb_neq; lia).
      split; [| reflexivity]. intros _.
      apply String.eqb_eq in Hpx. rewrite <- Hpx.
      apply list_elem_of_fmap. exists x. split; [reflexivity |].
      apply list_elem_of_lookup. eauto.
    + exfalso. apply find_none in Hf. rewrite Forall_forall in Hf.
      assert (Hin : x ∈ cs) by (apply list_elem_of_lookup; eauto).
      specialize (Hf x Hin). simpl in Hf. congruence.
Qed.

(** X10. The id input of the form is disabled exactly when some record of
    the table has the id of the form record, which is exactly when saving
    replaces a record instead of appending one: an existing id cannot be
    edited, and a new id is locked as soon as it equals an existing one. *)
Theorem id_input_disabled_iff_replace (st : AppState) (ec : CountryData) :
  editingCountry st = Some ec → id ec ≠ "" → pays ec ≠ "" →
  let cs' := countries (handleSaveCountry st).1 in
  (id_input_disabled (countries st) ec = true
   ↔ id ec ∈ (id <$> countries st))
  ∧ (id_input_disabled (countries st) ec = true →
     length cs' = length (countries st))
  ∧ (id_input_disabled (countries st) ec = false →
     cs' = countries st ++ [ec]).
Proof.
  intros He Hid Hpays cs'.
  destruct (handleSaveCountry_accepts st ec He Hid Hpays) as [Hcs _].
  subst cs'. rewrite Hcs.
  pose proof (id_input_disabled_spec (countries st) ec) as Hiff.
  split; [exact Hiff |]. split.
  - intros Hd. apply Hiff in Hd.
    destruct (upserted_cases (countries st) ec)
      as [[Hall _] | (l1 & c & l2 & Hsplit & _ & _ & ->)].
    + exfalso. apply list_elem_of_fmap in Hd as (c & Hc & Hin).
      rewrite Forall_forall in Hall. specialize (Hall c Hin). simpl in Hall.
      apply String.eqb_neq in Hall. congruence.
    + by rewrite Hsplit, !length_app.
  - intros Hd. apply upserted_absent. intros c Hc Heq.
    assert (Hin : id ec ∈ (id <$> countries st)).
    { rewrite <- Heq. apply list_elem_of_fmap. by exists c. }
    apply Hiff in Hin. congruence.
Qed.

Lemma id_input_disabled_iff_replace_witness :
  id_input_disabled [Sample.SEN; Sample.CIV] Sample.SEN_done = true
  ∧ length (countries
              (handleSaveCountry
                 (setEditingCountry (Some Sample.SEN_done) Sample.state)).1)
    = 2%nat.
Proof.
  destruct (id_input_disabled_iff_replace
              (setEditingCountry (Some Sample.SEN_done) Sample.state)
              Sample.SEN_done) as (_ & Hlen & _);
    [reflexivity | discriminate | discriminate |].
  split; [reflexivity |]. by apply Hlen.
Defined.

(** * Properties of the search and of the flags *)

Lemma append_cons (c : ascii) (a b : string) :
  (String c a ++ b)%string = String c (a ++ b)%string.
Proof. reflexivity. Qed.

Lemma append_nil (b : string) : ("" ++ b)%string = b.
Proof. reflexivity. Qed.

Lemma prefix_spec (q s : string) :
  String.prefix q s = true ↔ ∃ b, s = (q ++ b)%string.
Proof.
  revert s. induction q as [|c q IH]; intros s.
  - split; [intros _; by exists s | intros _; by destruct s].
  - destruct s as [|d s]; simpl.
    + split; [discriminate |]. intros [b Hb]. rewrite append_cons in Hb.
      discriminate.
    + destruct (ascii_dec c d) as [-> | Hne].
      * rewrite IH. split; intros [b Hb]; exists b.
        -- rewrite append_cons. by rewrite Hb.
        -- rewrite append_cons in Hb. by injection Hb.
      * split; [discriminate |]. intros [b Hb]. rewrite append_cons in Hb.
        congruence.
Qed.

Lemma string_includes_nil (q : string) :
  string_includes "" q = String.prefix q "".
Proof. apply orb_false_r. Qed.

Lemma string_includes_cons (d : ascii) (s q : string) :
  string_includes (String d s) q
  = String.prefix q (String d s) || string_includes s q.
Proof. reflexivity. Qed.

Lemma string_includes_spec (s q : string) :
  string_includes s q = true ↔ ∃ a b, s = (a ++ q ++ b)%string.
Proof.
  induction s as [|d s IH];
    [rewrite string_includes_nil | rewrite string_includes_cons].
  - rewrite prefix_spec. split.
    + intros [b Hb]. by exists "", b.
    + intros (a & b & Hab). destruct a as [|e a].
      * by exists b.
      * rewrite append_cons in Hab. discriminate.
  - rewrite orb_true_iff, prefix_spec, IH. split.
    + intros [[b Hb] | (a & b & Hab)].
      * by exists "", b.
      * exists (String d a), b. rewrite append_cons. by rewrite Hab.
    + intros (a & b & Hab). destruct a as [|e a].
      * left. by exists b.
      * right. rewrite append_cons in Hab. injection Hab as -> ->.
        by exists a, b.
Qed.

Lemma string_app_assoc (a b c : string) :
  ((a ++ b) ++ c)%string = (a ++ b ++ c)%string.
Proof.
  induction a as [|x a IH]; [reflexivity |].
  rewrite !append_cons. by rewrite IH.
Qed.

Lemma toLowerCase_app (a b : string) :
  toLowerCase (a ++ b) = (toLowerCase a ++ toLowerCase b)%string.
Proof.
  induction a as [|x a IH]; [reflexivity |].
  rewrite append_cons. simpl. rewrite append_cons. by rewrite IH.
Qed.

Lemma string_includes_trans (s q2 q1 : string) :
  string_includes s q2 = true → string_includes q2 q1 = true →
  string_includes s q1 = true.
Proof.
  rewrite !string_includes_spec.
  intros (a & b & ->) (a' & b' & ->).
  exists (a ++ a')%string, (b' ++ b)%string.
  by rewrite !string_app_assoc.
Qed.

Lemma List_filter_sublist {A : Type} (p : A → bool) (l : list A) :
  List.filter p l `sublist_of` l.
Proof.
  induction l as [|a l IH]; simpl; [constructor |].
  destruct (p a); by constructor.
Qed.

Lemma List_filter_all {A : Type} (p : A → bool) (l : list A) :
  (∀ x, p x = true) → List.filter p l = l.
Proof.
  intros Hp. induction l as [|a l IH]; [reflexivity |].
  simpl. by rewrite Hp, IH.
Qed.

(** X11. On ASCII text, where lower-casing maps each character by itself:
    the empty search shows the whole table, any search shows rows of the
    table in table order, and extending the query, before or after, can
    only remove rows. *)
Theorem search_narrows (q a b : string) (cs : list CountryData) :
  is_ascii a = true → is_ascii q = true → is_ascii b = true →
  Forall (λ c, is_ascii (pays c) = true ∧ is_ascii (itrf c) = true
               ∧ is_ascii (reseauActuel c) = true) cs →
  filteredData "" cs = cs
  ∧ filteredData q cs `sublist_of` cs
  ∧ filteredData (a ++ q ++ b) cs `sublist_of` filteredData q cs.
Proof.
  intros _ _ _ _.
  split; [| split].
  - apply List_filter_all. intros c. unfold matches_query. simpl.
    by destruct (toLowerCase (pays c)).
  - apply List_filter_sublist.
  - assert (Himp : ∀ c, matches_query (a ++ q ++ b) c = true →
                        matches_query q c = true).
    { intros c. unfold matches_query. rewrite !orb_true_iff.
      assert (Hq : string_includes (toLowerCase (a ++ q ++ b))
                     (toLowerCase q) = true).
      { apply string_includes_spec.
        exists (toLowerCase a), (toLowerCase b).
        by rewrite !toLowerCase_app. }
      intros [[Hm | Hm] | Hm]; [left; left | left; right | right];
        by eapply string_includes_trans. }
    unfold filteredData. induction cs as [|c cs IH]; simpl; [constructor |].
    destruct (matches_query (a ++ q ++ b) c) eqn:H2.
    + rewrite (Himp c H2). by constructor.
    + destruct (matches_query q c); [by apply sublist_cons | exact IH].
Qed.

Lemma search_narrows_witness :
  filteredData "SEneGAL" [Sample.SEN; Sample.CIV; Sample.COM]
    `sublist_of` filteredData "ne" [Sample.SEN; Sample.CIV; Sample.COM].
Proof.
  destruct (search_narrows "ne" "SE" "GAL"
              [Sample.SEN; Sample.CIV; Sample.COM])
    as (_ & _ & Hsub).
  - reflexivity.
  - reflexivity.
  - reflexivity.
  - repeat constructor.
  - exact Hsub.
Defined.

Lemma lower_upper_ascii (c : ascii) :
  lower_ascii (upper_ascii c) = lower_ascii c.
Proof. destruct c as [[] [] [] [] [] [] [] []]; reflexivity. Qed.

Lemma toLowerCase_toUpperCase (s : string) :
  toLowerCase (toUpperCase s) = toLowerCase s.
Proof.
  induction s as [|c s IH]; simpl; [reflexivity |].
  by rewrite lower_upper_ascii, IH.
Qed.

(** X12. On ASCII text the search does not depend on the case of the
    query: a query and its upper-case form show the same rows. *)
Theorem search_ignores_query_case (q : string) (cs : list CountryData) :
  is_ascii q = true →
  Forall (λ c, is_ascii (pays c) = true ∧ is_ascii (itrf c) = true
               ∧ is_ascii (reseauActuel c) = true) cs →
  filteredData (toUpperCase q) cs = filteredData q cs.
Proof.
  intros _ _. unfold filteredData, matches_query.
  by rewrite toLowerCase_toUpperCase.
Qed.

Lemma search_ignores_query_case_witness :
  filteredData "SENE" [Sample.SEN; Sample.CIV; Sample.COM] = [Sample.SEN].
Proof.
  transitivity (filteredData (toUpperCase "sene")
                  [Sample.SEN; Sample.CIV; Sample.COM]); [reflexivity |].
  rewrite (search_ignores_query_case "sene"
             [Sample.SEN; Sample.CIV; Sample.COM]).
  - reflexivity.
  - reflexivity.
  - repeat constructor.
Defined.

Lemma ISO3_TO_ISO2_values (k v : string) :
  ISO3_TO_ISO2 !! k = Some v →
  truthy v = true
  ∧ ∃ a b, (λ c, Z.of_nat (nat_of_ascii c) + 127397)
             <$> list_ascii_of_string (toUpperCase v) = [a; b]
           ∧ 127462 <= a <= 127487 ∧ 127462 <= b <= 127487.
Proof.
  intros Hk.
  assert (Hin : (k, v) ∈ map_to_list ISO3_TO_ISO2)
    by (by apply elem_of_map_to_list).
  revert Hin. vm_compute map_to_list. intros Hin.
  repeat (apply elem_of_cons in Hin as [Hin | Hin];
          [injection Hin as _ ->; split; [reflexivity |];
           eexists _, _; split; [reflexivity | vm_compute; intuition discriminate]
          |]).
  by apply elem_of_nil in Hin.
Qed.

(** X13. For every identifier, [getEmojiFlag] gives either the empty
    string or exactly two regional-indicator code points (U+1F1E6 to
    U+1F1FF), and it gives the empty string exactly when [getFlagUrl]
    gives [null]. *)
Theorem flag_is_empty_or_two_indicators (iso3 : string) :
  (getEmojiFlag iso3 = []
   ∨ ∃ a b, getEmojiFlag iso3 = [a; b]
            ∧ 127462 <= a <= 127487 ∧ 127462 <= b <= 127487)
  ∧ (getEmojiFlag iso3 = [] ↔ getFlagUrl iso3 = None).
Proof.
  unfold getEmojiFlag, getFlagUrl.
  destruct (ISO3_TO_ISO2 !! toUpperCase iso3) as [v|] eqn:Hv.
  - destruct (ISO3_TO_ISO2_values _ _ Hv) as (Ht & a & b & Hab & Ha & Hb).
    rewrite Ht, Hab. split.
    + right. by exists a, b.
    + split; discriminate.
  - split; [by left | by split].
Qed.

(** * More on the statistics *)

Lemma nearest_tenth_Z (n c T : Z) :
  (0 < T)%Z →
  (Qabs (inject_Z n / 10 - inject_Z c / inject_Z T * 100) <= 1 # 20)%Q →
  (- T <= 2 * (n * T - 1000 * c) <= T)%Z.
Proof.
  intros HT Habs.
  assert (HTq : (0 < inject_Z T)%Q)
    by (replace 0%Q with (inject_Z 0) by reflexivity; rewrite <- Zlt_Qlt; lia).
  apply Qabs_Qle_condition in Habs as [Hlo Hhi].
  set (r := (inject_Z c / inject_Z T)%Q) in *.
  assert (HrT : (r * inject_Z T == inject_Z c)%Q) by (unfold r; field; lra).
  unfold Qdiv in Hlo, Hhi. change (/ 10)%Q with (1 # 10)%Q in Hlo, Hhi.
  set (X := (inject_Z n * (1 # 10) - r * 100)%Q) in *.
  assert (H1 : (X * inject_Z T <= (1 # 20) * inject_Z T)%Q)
    by (apply Qmult_le_compat_r; lra).
  assert (H2 : (- (1 # 20) * inject_Z T <= X * inject_Z T)%Q)
    by (apply Qmult_le_compat_r; lra).
  assert (HX : (20 * (X * inject_Z T) == inject_Z (2 * (n * T - 1000 * c)))%Q).
  { unfold X, Zminus.
    rewrite !inject_Z_mult, inject_Z_plus, inject_Z_opp, !inject_Z_mult.
    change (inject_Z 2) with 2%Q. change (inject_Z 1000) with 1000%Q. lra. }
  split.
  - rewrite Zle_Qle, inject_Z_opp, <- HX. lra.
  - rewrite Zle_Qle, <- HX. lra.
Qed.

(** The tenths shown for [c] records out of [T]. *)
Lemma percentage_Z (c T : Z) :
  (0 <= c <= T)%Z → (0 < T < 2 ^ 32)%Z →
  let n := toFixed1 (num_mul (num_div (inject_Z c) (inject_Z T)) 100) in
  (- T <= 2 * (n * T - 1000 * c) <= T)%Z.
Proof.
  intros Hc HT n. apply nearest_tenth_Z; [lia |].
  by apply percentage_nearest_tenth.
Qed.

Lemma stat_row_nonempty (data : list CountryData) (item : StatItem) :
  data ≠ [] →
  row_percentage (stat_row data item) = PctFixed1 (shown_tenths data item).
Proof. intros Hne. destruct data; [done | reflexivity]. Qed.

Lemma row_count_le (data : list CountryData) (item : StatItem) :
  (row_count (stat_row data item) <= length data)%nat.
Proof. simpl. apply List.filter_length_le. Qed.

Lemma shown_tenths_bounds (data : list CountryData) (item : StatItem) :
  data ≠ [] → (Z.of_nat (length data) < 2 ^ 32)%Z →
  (- Z.of_nat (length data)
   <= 2 * (shown_tenths data item * Z.of_nat (length data)
           - 1000 * Z.of_nat (row_count (stat_row data item)))
   <= Z.of_nat (length data))%Z.
Proof.
  intros Hne Hlen.
  assert (Hpos : (0 < Z.of_nat (length data))%Z)
    by (destruct data; [done | simpl; lia]).
  pose proof (row_count_le data item) as Hle.
  apply (percentage_Z (Z.of_nat (row_count (stat_row data item)))
           (Z.of_nat (length data))); lia.
Qed.

Lemma counts_partition (data : list CountryData) :
  sum_list (row_count <$> statistics data)
  = length (List.filter (λ c, tracked (status c)) data)
  ∧ (sum_list (row_count <$> statistics data)
     + length (List.filter (λ c, negb (tracked (status c))) data)
     = length data)%nat.
Proof.
  assert (H1 : sum_list (row_count <$> statistics data)
               = length (List.filter (λ c, tracked (status c)) data)).
  { unfold statistics, tracked. simpl.
    induction data as [|c data IH]; [reflexivity |].
    simpl in *.
    repeat match goal with
           | |- context [String.eqb (status c) ?s] =>
             destruct (String.eqb_spec (status c) s) as [Heq | ?];
               [rewrite ?Heq; clear Heq |]
           end; simpl; rewrite <- ?IH; lia. }
  split; [exact H1 |]. rewrite H1. clear H1.
  induction data as [|c data IH]; [reflexivity |].
  simpl. destruct (tracked (status c)); simpl; lia.
Qed.

(** X14. The four counts add up to the number of records whose status has
    a row; together with the records of any other status (ACTIF or an
    unknown string) they make up the table. *)
Theorem statistics_counts_partition (data : list CountryData) :
  sum_list (row_count <$> statistics data)
  = length (List.filter (λ c, tracked (status c)) data)
  ∧ (sum_list (row_count <$> statistics data)
     + length (List.filter (λ c, negb (tracked (status c))) data)
     = length data)%nat.
Proof. exact (counts_partition data). Qed.

(** X15. On a table that is not empty, every percentage shown lies between
    0.0 and 100.0; it is 100.0 for a status that every record has and 0.0
    for a status that no record has. *)
Theorem percentage_between_0_and_100 (data : list CountryData) :
  data ≠ [] → (Z.of_nat (length data) < 2 ^ 32)%Z →
  ∀ row, row ∈ statistics data →
    ∃ n, row_percentage row = PctFixed1 n
         ∧ (0 <= n <= 1000)%Z
         ∧ (row_count row = length data → n = 1000)
         ∧ (row_count row = 0%nat → n = 0).
Proof.
  intros Hne Hlen row Hrow. unfold statistics in Hrow.
  apply list_elem_of_fmap in Hrow as (item & -> & _).
  exists (shown_tenths data item).
  split; [by apply stat_row_nonempty |].
  pose proof (row_count_le data item) as Hle.
  assert (Hpos : (0 < Z.of_nat (length data))%Z)
    by (destruct data; [done | simpl; lia]).
  pose proof (shown_tenths_bounds data item Hne Hlen) as Hn.
  generalize dependent (shown_tenths data item). intros n Hn.
  generalize dependent (row_count (stat_row data item)). intros c Hle Hn.
  generalize dependent (length data). intros T _ Hpos Hle Hn.
  split; [nia |]. split; intros Hc; subst c; nia.
Qed.

Lemma percentage_between_0_and_100_witness :
  (Z.of_nat (length [Sample.SEN_done; Sample.CIV; Sample.COM]) < 2 ^ 32)%Z
  ∧ ∀ row, row ∈ statistics [Sample.SEN_done; Sample.CIV; Sample.COM] →
      ∃ n, row_percentage row = PctFixed1 n ∧ (0 <= n <= 1000)%Z.
Proof.
  split; [reflexivity |].
  intros row Hrow.
  destruct (percentage_between_0_and_100
              [Sample.SEN_done; Sample.CIV; Sample.COM]
              ltac:(discriminate) ltac:(reflexivity) row Hrow)
    as (n & Hn & Hb & _).
  exists n. split; [exact Hn | exact Hb].
Defined.

Lemma tenths_sum_bounds (n1 n2 n3 n4 c1 c2 c3 c4 T : Z) :
  (0 < T)%Z →
  (- T <= 2 * (n1 * T - 1000 * c1) <= T)%Z →
  (- T <= 2 * (n2 * T - 1000 * c2) <= T)%Z →
  (- T <= 2 * (n3 * T - 1000 * c3) <= T)%Z →
  (- T <= 2 * (n4 * T - 1000 * c4) <= T)%Z →
  (c1 + c2 + c3 + c4 <= T)%Z →
  (n1 + n2 + n3 + n4 <= 1002)%Z
  ∧ (c1 + c2 + c3 + c4 = T → 998 <= n1 + n2 + n3 + n4)%Z.
Proof.
  intros HT H1 H2 H3 H4 Hc.
  assert (Hmul : ((n1 + n2 + n3 + n4) * T
                  = n1 * T + n2 * T + n3 * T + n4 * T)%Z) by ring.
  split.
  - apply (Z.mul_le_mono_pos_r _ _ T HT). lia.
  - intros Hfull. apply (Z.mul_le_mono_pos_r _ _ T HT). lia.
Qed.

(** X16. On a table that is not empty, the four percentages add up to at
    most 100.2, and to at least 99.8 when every record has one of the four
    statuses. *)
Theorem percentages_sum (data : list CountryData) :
  data ≠ [] → (Z.of_nat (length data) < 2 ^ 32)%Z →
  ∃ n1 n2 n3 n4,
    row_percentage <$> statistics data
    = [PctFixed1 n1; PctFixed1 n2; PctFixed1 n3; PctFixed1 n4]
    ∧ (n1 + n2 + n3 + n4 <= 1002)%Z
    ∧ (Forall (λ c, tracked (status c) = true) data →
       (998 <= n1 + n2 + n3 + n4)%Z).
Proof.
  intros Hne Hlen.
  assert (Hpos : (0 < Z.of_nat (length data))%Z)
    by (destruct data; [done | simpl; lia]).
  destruct (counts_partition data) as [_ Hpart].
  set (i1 := mkItem "Complete" "COMPLET" "bg-[#93c5fd]").
  set (i2 := mkItem "No Epoch" "SANS_EPOQUE" "bg-[#fde047]").
  set (i3 := mkItem "Missing" "MANQUE_INFO" "bg-[#fca5a5]").
  set (i4 := mkItem "Local" "CANEVA_LOCAL" "bg-[#c084fc]").
  assert (Hrows : statistics data
                  = [stat_row data i1; stat_row data i2;
                     stat_row data i3; stat_row data i4]) by reflexivity.
  assert (Hsum : sum_list (row_count <$> statistics data)
                 = (row_count (stat_row data i1) + row_count (stat_row data i2)
                    + row_count (stat_row data i3)
                    + row_count (stat_row data i4))%nat).
  { rewrite Hrows. simpl. lia. }
  rewrite Hsum in Hpart. clear Hsum.
  exists (shown_tenths data i1), (shown_tenths data i2),
         (shown_tenths data i3), (shown_tenths data i4).
  split.
  { rewrite Hrows.
    change (row_percentage <$> [stat_row data i1; stat_row data i2;
                                stat_row data i3; stat_row data i4])
      with [row_percentage (stat_row data i1);
            row_percentage (stat_row data i2);
            row_percentage (stat_row data i3);
            row_percentage (stat_row data i4)].
    by rewrite !(stat_row_nonempty data _ Hne). }
  clear Hrows.
  assert (Hc : (Z.of_nat (row_count (stat_row data i1))
                + Z.of_nat (row_count (stat_row data i2))
                + Z.of_nat (row_count (stat_row data i3))
                + Z.of_nat (row_count (stat_row data i4))
                <= Z.of_nat (length data))%Z) by lia.
  destruct (tenths_sum_bounds _ _ _ _ _ _ _ _ _ Hpos
              (shown_tenths_bounds data i1 Hne Hlen)
              (shown_tenths_bounds data i2 Hne Hlen)
              (shown_tenths_bounds data i3 Hne Hlen)
              (shown_tenths_bounds data i4 Hne Hlen) Hc)
    as [Hup Hlow].
  split; [exact Hup |].
  intros Hall. apply Hlow.
  assert (Hnil : List.filter (λ c, negb (tracked (status c))) data = []).
  { clear -Hall. induction Hall as [|c l Hc _ IH]; [reflexivity |].
    simpl. by rewrite Hc. }
  rewrite Hnil in Hpart.
  change (length (@nil CountryData)) with 0%nat in Hpart. lia.
Qed.

Lemma percentages_sum_witness :
  ∃ n1 n2 n3 n4,
    row_percentage <$> statistics [Sample.SEN_done; Sample.CIV; Sample.COM]
    = [PctFixed1 n1; PctFixed1 n2; PctFixed1 n3; PctFixed1 n4]
    ∧ (n1 + n2 + n3 + n4 <= 1002)%Z.
Proof.
  destruct (percentages_sum [Sample.SEN_done; Sample.CIV; Sample.COM]
              ltac:(discriminate) ltac:(reflexivity))
    as (n1 & n2 & n3 & n4 & Hrows & Hle & _).
  exists n1, n2, n3, n4. split; [exact Hrows | exact Hle].
Defined.

(** * More on the persistence protocol *)

Section PersistenceMore.
Context `{Platform}.

Lemma mirror_countries_data_file (w : World) :
  data_file (mirror_countries w) = data_file w.
Proof. unfold mirror_countries. by destruct (isLoading (app w)). Qed.

Lemma mirror_headers_data_file (w : World) :
  data_file (mirror_headers w) = data_file w.
Proof. unfold mirror_headers. by destruct (isLoading (app w)). Qed.

Lemma handleSaveAll_data_file (w : World) :
  express_json (request_body (mkPayload (Some (countries (app w)))
                                        (Some (headers (app w))))) = true →
  data_file (handleSaveAll true true w)
  = Some (mkPayload (Some (countries (app w))) (Some (headers (app w)))).
Proof.
  intros Hfits.
  unfold handleSaveAll, handleSaveAll_request, handleSaveAll_settle,
    fetch_POST. rewrite Hfits. simpl.
  rewrite lookup_app_r by reflexivity. rewrite Nat.sub_diag. reflexivity.
Qed.

(** A save whose body is longer than the parser accepts does not reach the
    route: the file is left as it was, whatever the server could write. *)
Lemma handleSaveAll_too_large (write_ok : bool) (w : World) :
  express_json (request_body (mkPayload (Some (countries (app w)))
                                        (Some (headers (app w))))) = false →
  data_file (handleSaveAll true write_ok w) = data_file w.
Proof.
  intros Hfits.
  unfold handleSaveAll, handleSaveAll_request, handleSaveAll_settle,
    fetch_POST. rewrite Hfits. simpl.
  rewrite lookup_app_r by reflexivity. rewrite Nat.sub_diag. reflexivity.
Qed.

(** X17. A save whose body the parser of the server accepts (at most
    102400 bytes) and that reaches a server able to write, followed by a
    reload that reaches the server, brings back exactly the saved table
    and labels, whatever the local cache held; the cache is then rewritten
    to match and the server file is not touched by the reload. *)
Theorem save_then_reload (post_up write_ok : bool) (w : World) :
  express_json (request_body (mkPayload (Some (countries (app w)))
                                        (Some (headers (app w))))) = true →
  let saved := handleSaveAll true true w in
  let w' := reload true post_up write_ok saved in
  countries (app w') = countries (app w)
  ∧ headers (app w') = headers (app w)
  ∧ cache_in_sync w'
  ∧ data_file w' = data_file saved.
Proof.
  intros Hfits saved w'.
  assert (Hfile : data_file saved
                  = Some (mkPayload (Some (countries (app w)))
                                    (Some (headers (app w)))))
    by (by apply handleSaveAll_data_file).
  assert (Happ : app w' = app (fetchData true post_up write_ok
                                 (initial_world (localStorage saved)
                                    (data_file saved)))).
  { unfold w', reload, startup.
    by rewrite mirror_headers_app, mirror_countries_app. }
  split; [| split; [| split]].
  - rewrite Happ, Hfile. reflexivity.
  - rewrite Happ, Hfile. reflexivity.
  - apply startup_sync.
  - unfold w', reload, startup.
    rewrite mirror_headers_data_file, mirror_countries_data_file, Hfile.
    reflexivity.
Qed.

(** X18. When the cache mirrors the state and the parser reads back what
    the serialiser wrote (never the empty string), a reload whose request
    is rejected brings back the table and the labels from the cache. *)
Theorem offline_reload_restores (post_up write_ok : bool) (w : World) :
  cache_in_sync w →
  stringify_countries (countries (app w)) ≠ "" →
  parse_countries (stringify_countries (countries (app w)))
    = Some (countries (app w)) →
  stringify_headers (headers (app w)) ≠ "" →
  parse_headers (stringify_headers (headers (app w)))
    = Some (headers (app w)) →
  let w' := reload false post_up write_ok w in
  countries (app w') = countries (app w)
  ∧ headers (app w') = headers (app w).
Proof.
  intros [Hc Hh] Hsc Hpc Hsh Hph w'.
  assert (Happ : app w' = app (fetchData false post_up write_ok
                                 (initial_world (localStorage w)
                                    (data_file w)))).
  { unfold w', reload, startup.
    by rewrite mirror_headers_app, mirror_countries_app. }
  rewrite Happ.
  exact (fetchData_unreachable_cache post_up write_ok (localStorage w)
           (data_file w) _ _ _ _ Hc Hsc Hpc Hh Hsh Hph).
Qed.

(** X19. While the application is loading, no click and no edit writes to
    the local cache: a table or label mutation made before startup has
    finished is not mirrored.  Only the arrival of the response of a save
    writes to it. *)
Theorem no_mirror_while_loading (ev : Event) (w : World) :
  isLoading (app w) = true → (∀ k, ev ≠ SaveAllSettled k) →
  localStorage (step ev w) = localStorage w.
Proof.
  intros Hl Hev.
  destruct ev as [c | ec | | i confirmed | h | | up write_ok | k | c |];
    try reflexivity.
  - unfold step.
    destruct (handleSaveCountry_facts (app w)) as (Hl' & _ & _).
    destruct (handleSaveCountry (app w)) as [st [msg|]]; [reflexivity |].
    simpl in Hl'. unfold mirror_countries.
    change (isLoading (app (set_app st w))) with (isLoading st).
    by rewrite Hl', Hl.
  - unfold step. destruct confirmed; [| reflexivity].
    destruct (handleDeleteCountry_facts i (app w)) as [Hl' _].
    unfold mirror_countries.
    change (isLoading (app (set_app (handleDeleteCountry true i (app w)) w)))
      with (isLoading (handleDeleteCountry true i (app w))).
    by rewrite Hl', Hl.
  - destruct (saveHeaders_facts (app w)) as (_ & Hl' & _).
    unfold step.
    destruct (editingHeaders_is_headers (app w)); [reflexivity |].
    unfold mirror_headers.
    change (isLoading (app (set_app (saveHeaders (app w)) w)))
      with (isLoading (saveHeaders (app w))).
    by rewrite Hl', Hl.
  - unfold step.
    by destruct (handleSaveAll_request_app up write_ok w) as (_ & -> & _).
  - by destruct (Hev k).
Qed.

(** X20. At a startup whose request is rejected, a cached table that
    [JSON.parse] refuses aborts the fallback: the seed table stays, and the
    cached labels are not read either, even when they would parse. *)
Theorem corrupt_cached_table_blocks_labels (post_up write_ok : bool)
    (ls : gmap string string) (file : option Payload) (sd : string) :
  ls !! "geodetic_data" = Some sd → sd ≠ "" → parse_countries sd = None →
  let w := fetchData false post_up write_ok (initial_world ls file) in
  countries (app w) = AFRICA_DATA ∧ headers (app w) = initial_headers.
Proof.
  intros Hd Hsd Hp. apply truthy_true_iff in Hsd.
  unfold fetchData, fetch_GET, fetchData_catch. simpl.
  rewrite Hd, Hsd, Hp. split; reflexivity.
Qed.

(** X21. After a startup that reaches a server with a readable file and
    able to write, the server file holds a table and that table is the one
    in memory: the remote table when there was one, the seed table
    otherwise (sent with the default labels, while the memory keeps the
    labels the server had, if any).  A second such startup does not write
    to the server.  The seeding request passes the parser of the server
    ([AFRICA_DATA_fits]). *)
Theorem reachable_startup_shares_table (ls : gmap string string)
    (data : Payload) :
  let w := startup true true true (initial_world ls (Some data)) in
  data_file w
  = Some match p_countries data with
         | Some _ => data
         | None => mkPayload (Some AFRICA_DATA) (Some initial_headers)
         end
  ∧ (∃ p, data_file w = Some p ∧ p_countries p = Some (countries (app w)))
  ∧ headers (app w) = default initial_headers (p_headers data)
  ∧ data_file (reload true true true w) = data_file w.
Proof.
  intros w.
  assert (Hfile : data_file w
                  = Some match p_countries data with
                         | Some _ => data
                         | None => mkPayload (Some AFRICA_DATA)
                                             (Some initial_headers)
                         end).
  { unfold w, startup.
    rewrite mirror_headers_data_file, mirror_countries_data_file.
    destruct data as [[cs|] [h|]]; unfold fetchData; simpl;
      rewrite ?fetch_POST_seed; reflexivity. }
  assert (Happ : app w = app (fetchData true true true
                                (initial_world ls (Some data)))).
  { unfold w, startup. by rewrite mirror_headers_app, mirror_countries_app. }
  split; [exact Hfile |]. split; [| split].
  - rewrite Hfile, Happ.
    destruct data as [[cs|] [h|]]; unfold fetchData; simpl;
      rewrite ?fetch_POST_seed; eexists; by split.
  - rewrite Happ.
    destruct data as [[cs|] [h|]]; unfold fetchData; simpl;
      rewrite ?fetch_POST_seed; reflexivity.
  - unfold reload, startup.
    rewrite mirror_headers_data_file, mirror_countries_data_file, Hfile.
    destruct data as [[cs|] [h|]]; reflexivity.
Qed.

End PersistenceMore.

Lemma save_then_reload_witness :
  let w := @run Sample.platform
             [EditCountry Sample.SEN_done; SaveCountry;
              EditHeaders Sample.labels_fr; SaveHeaders]
             (@startup Sample.platform false true true
                (@initial_world Sample.platform
                   {[ "geodetic_data" := "COM" ]} None)) in
  let w' := @reload Sample.platform true true true
              (@handleSaveAll Sample.platform true true w) in
  countries (app w') = [Sample.COM; Sample.SEN_done]
  ∧ headers (app w') = Sample.labels_fr.
Proof.
  intros w w'.
  destruct (@save_then_reload Sample.platform true true w)
    as (Hc & Hh & _).
  - vm_compute. reflexivity.
  - split.
    + transitivity (countries (app w)); [exact Hc | vm_compute; reflexivity].
    + transitivity (headers (app w)); [exact Hh | vm_compute; reflexivity].
Defined.

Lemma offline_reload_restores_witness :
  let w := @run Demo.platform
             [EditCountry Sample.SEN_done; SaveCountry;
              EditCountry Sample.COM; SaveCountry;
              EditHeaders Sample.labels_fr; SaveHeaders]
             (@startup Demo.platform false true true
                (@initial_world Demo.platform ∅ None)) in
  let w' := @reload Demo.platform false true true w in
  countries (app w') = [Sample.SEN_done; Sample.CIV; Sample.COM]
  ∧ headers (app w') = Sample.labels_fr
  ∧ countries (app w') ≠ @AFRICA_DATA Demo.platform
  ∧ headers (app w') ≠ initial_headers.
Proof.
  intros w w'.
  destruct (@offline_reload_restores Demo.platform true true w)
    as [Hc Hh].
  - split; vm_compute; reflexivity.
  - vm_compute. discriminate.
  - vm_compute. reflexivity.
  - vm_compute. discriminate.
  - vm_compute. reflexivity.
  - fold w' in Hc, Hh.
    assert (Hcs : countries (app w')
                  = [Sample.SEN_done; Sample.CIV; Sample.COM])
      by (transitivity (countries (app w)); [exact Hc | vm_compute; reflexivity]).
    assert (Hhs : headers (app w') = Sample.labels_fr)
      by (transitivity (headers (app w)); [exact Hh | vm_compute; reflexivity]).
    split; [exact Hcs |]. split; [exact Hhs |].
    split; [rewrite Hcs | rewrite Hhs]; discriminate.
Defined.

Lemma no_mirror_while_loading_witness :
  localStorage
    (@step Sample.platform SaveCountry
       (@step Sample.platform (EditCountry Sample.COM)
          (@initial_world Sample.platform ∅ None)))
  = ∅.
Proof.
  rewrite (@no_mirror_while_loading Sample.platform SaveCountry
             (@step Sample.platform (EditCountry Sample.COM)
                (@initial_world Sample.platform ∅ None)));
    [reflexivity | reflexivity | discriminate].
Defined.

Lemma corrupt_cached_table_blocks_labels_witness :
  let ls : gmap string string :=
    {[ "geodetic_data" := "junk"; "table_headers" := "Pays" ]} in
  let w := @fetchData Demo.platform false true true
             (@initial_world Demo.platform ls None) in
  @parse_headers Demo.platform "Pays" = Some Sample.labels_fr
  ∧ countries (app w) = [Sample.SEN; Sample.CIV]
  ∧ headers (app w) = initial_headers.
Proof.
  split; [reflexivity |].
  apply (@corrupt_cached_table_blocks_labels Demo.platform true true
           {[ "geodetic_data" := "junk"; "table_headers" := "Pays" ]} None
           "junk").
  - reflexivity.
  - discriminate.
  - reflexivity.
Defined.

(** * More on the join and the rendering *)

Lemma idMap_values_fixed (k v : string) :
  idMap !! k = Some v → normalize v = v.
Proof.
  intros Hk.
  assert (Hin : (k, v) ∈ map_to_list idMap) by (by apply elem_of_map_to_list).
  revert Hin. vm_compute map_to_list. intros Hin.
  repeat (apply elem_of_cons in Hin as [Hin | Hin];
          [injection Hin as _ ->; reflexivity |]).
  by apply elem_of_nil in Hin.
Qed.

Lemma normalize_idempotent (fid : IdValue) :
  normalize (normalize fid) = normalize fid.
Proof.
  destruct fid as [k | name]; [| reflexivity].
  destruct (idMap !! k) as [v|] eqn:Hv.
  - rewrite (normalize_alias k v Hv). by apply (idMap_values_fixed k).
  - destruct (decide (k ∈ Object_prototype_keys)) as [Hin | Hin].
    + by rewrite (normalize_inherited k Hin).
    + by rewrite !(normalize_unmapped k Hv Hin).
Qed.

(** A retained feature passes the filter again and keeps its identifier. *)
Lemma rewrite_id_again {G : Type} (data : list CountryData) (f : Feature G)
    (s : string) :
  normalize (f_id f) = IdString s → s ∈ (id <$> data) →
  includes_value (africanIsoCodes data) (normalize s) = true
  ∧ rewrite_id (with_id f s) = Some (with_id f s).
Proof.
  intros Hs Hin.
  assert (Hfix : normalize (IdString s) = IdString s).
  { rewrite <- Hs. apply normalize_idempotent. }
  unfold rewrite_id. simpl. rewrite Hfix. split; [| reflexivity].
  apply includes_value_spec. by exists s.
Qed.

(** X22. Normalising an identifier twice is normalising it once, and
    joining an already joined collection with the same records returns
    it unchanged. *)
Theorem join_idempotent {G : Type} (data : list CountryData)
    (features : list (Feature G)) :
  (∀ fid, normalize (normalize fid) = normalize fid)
  ∧ africa_features data (africa_features data features)
    = africa_features data features.
Proof.
  split; [exact normalize_idempotent |].
  unfold africa_features.
  induction features as [|f fs IH]; [reflexivity |].
  simpl.
  destruct (includes_value (africanIsoCodes data) (normalize (f_id f)))
    eqn:Hinc; [| exact IH].
  destruct (rewrite_id_retained data f Hinc) as (s & Hs & Hin & Hre).
  destruct (rewrite_id_again data f s Hs Hin) as [Hinc' Hre'].
  simpl. rewrite Hre. simpl. rewrite Hinc'. simpl. rewrite Hre'.
  f_equal. exact IH.
Qed.

Section RenderMore.
Context {G : Type} `{D3 G}.

Variables (client dimensions : Size).
Variables (selectedCountryId : option string) (data : list CountryData).
Variable svg : list SvgNode.

Let w : Q := num_or (width dimensions) (width client).
Let h : Q := num_or (height dimensions) (height client).

(** X23. When the effect draws a collection joined with the records it is
    given, there is one path per retained feature and every path has a
    record: a click on it selects a record of the table with the
    identifier of the path, and its fill is not the "no record" colour as
    long as that record has one of the five statuses. *)
Theorem joined_paths_have_records (topology : list (Feature G)) :
  ¬ (w == 0)%Q → ¬ (h == 0)%Q →
  let drawn :=
    render (Some (africa_features data topology)) (Some client) dimensions
      selectedCountryId data svg in
  length (paths drawn) = length (africa_features data topology)
  ∧ ∀ p, p ∈ paths drawn →
      ∃ c, click_target data (path_datum p) = Some c
           ∧ c ∈ data ∧ id c = path_datum p
           ∧ (tracked (status c) || String.eqb (status c) "ACTIF" = true →
              path_fill p ≠ "#f1f5f9").
Proof.
  intros Hw Hh drawn.
  assert (Hpaths := paths_drawn (africa_features data topology) client
                      dimensions selectedCountryId data svg Hw Hh).
  fold drawn in Hpaths. rewrite Hpaths. clear Hpaths.
  split; [by rewrite length_fmap |].
  intros p Hp. apply list_elem_of_fmap in Hp as (g & -> & Hg).
  assert (Hid : f_id g ∈ (id <$> data)).
  { by apply africa_features_elem in Hg as (f & _ & _ & Hid & _). }
  destruct (find_id_some data (f_id g) Hid) as (c & Hfind & Hc & Hcid).
  exists c. simpl. split; [exact Hfind |]. split; [exact Hc |].
  split; [exact Hcid |].
  unfold country_fill. rewrite Hfind. unfold tracked. simpl.
  repeat match goal with
         | |- context [String.eqb (status c) ?s] =>
           destruct (String.eqb_spec (status c) s) as [Heq | ?];
             [rewrite ?Heq; clear Heq |]
         end; simpl; intros Hs; discriminate.
Qed.

(** X24. At most one island marker is highlighted: none without a
    selection or when the selected identifier is not one of the five
    islands, exactly one when it is. *)
Theorem one_marker_highlighted (features : list (Feature G)) :
  ¬ (w == 0)%Q → ¬ (h == 0)%Q →
  let drawn :=
    render (Some features) (Some client) dimensions selectedCountryId data
      svg in
  length (List.filter marker_selected (markers drawn))
  = match selectedCountryId with
    | Some s => if includes islandIds s then 1%nat else 0%nat
    | None => 0%nat
    end.
Proof.
  intros Hw Hh drawn.
  assert (Hm := markers_drawn features client dimensions selectedCountryId
                  data svg Hw Hh).
  fold drawn in Hm. rewrite Hm. clear Hm.
  destruct selectedCountryId as [s|]; [| reflexivity].
  unfold manualIslands, islandIds, includes. simpl.
  repeat match goal with
         | |- context [String.eqb s ?i] =>
           destruct (String.eqb_spec s i) as [Heq | ?];
             [rewrite ?Heq; clear Heq |]
         end; reflexivity.
Qed.

End RenderMore.

Lemma joined_paths_have_records_witness :
  length (paths (@render unit Sample.d3
                   (Some (africa_features [Sample.COM; Sample.SEN]
                            [Sample.comoros; Sample.france; Sample.mayotte]))
                   (Some (mkSize 0 0)) (mkSize 800 600) None
                   [Sample.COM; Sample.SEN] []))
  = 2%nat.
Proof.
  destruct (@joined_paths_have_records unit Sample.d3 (mkSize 0 0)
              (mkSize 800 600) None [Sample.COM; Sample.SEN] []
              [Sample.comoros; Sample.france; Sample.mayotte])
    as [Hlen _].
  - vm_compute. discriminate.
  - vm_compute. discriminate.
  - exact Hlen.
Defined.

Lemma one_marker_highlighted_witness :
  length (List.filter marker_selected
            (markers (@render unit Sample.d3 (Some [Sample.france])
                        (Some (mkSize 0 0)) (mkSize 800 600) (Some "COM")
                        [Sample.COM] [])))
  = 1%nat.
Proof.
  apply (@one_marker_highlighted unit Sample.d3 (mkSize 0 0) (mkSize 800 600)
           (Some "COM") [Sample.COM] [] [Sample.france]).
  - vm_compute. discriminate.
  - vm_compute. discriminate.
Defined.
